(** * Elixir-to-text converter: a shallow embedding of [src/script.py]

    The script walks a source tree, skips directories named [deps], and for
    every file whose name ends in [.ex] or [.exs] writes an annotated text
    copy into one flat output directory, logging one line per file.

    Modelling conventions.
    - A Python [str] is a list of code points ([N]).  File names are taken to
      be text (Unicode scalar values), which is what [os.walk] yields on a
      file system whose names are valid UTF-8; such strings can always be
      encoded.
    - [set()] is a [gset], the output directory a [gmap] from file name to
      the text written, the log the list of records passed to [log.write].
    - Results of operating-system calls (directory listings, reads, writes,
      clock) are inputs of the model.  Failures are exceptions of class
      [Exception].  Writes to the already opened log and the closing of a
      source that was read are taken to succeed.
    - Paths are POSIX paths; [pathlib] is that of CPython 3.11.
    - [hashlib.md5] is implemented from RFC 1321, and the [utf-8] codec with
      [errors='replace'] as CPython has it, so that runs compute. *)

From Stdlib Require Import NArith Ascii String.
From stdpp Require Import base numbers option list gmap.

Local Open Scope N_scope.

(** ** Python strings *)

Abbreviation str := (list N) (only parsing).

(** An ASCII literal as a list of code points. *)
Definition lit (s : string) : list N := N_of_ascii <$> list_ascii_of_string s.

(** [s.endswith(suf)] *)
Definition endswith (s suf : list N) : bool :=
  bool_decide (drop (length s - length suf)%nat s = suf).

(** [s.rfind(c)]: the index of the last occurrence of [c], if any. *)
Fixpoint rfind (c : N) (s : list N) : option nat :=
  match s with
  | [] => None
  | x :: r =>
      match rfind c r with
      | Some i => Some (S i)
      | None => if bool_decide (x = c) then Some O else None
      end
  end.

(** ** [hashlib.md5] (RFC 1321) on byte lists *)

Module Md5.

Definition add32 (a b : N) : N := (a + b) mod 2 ^ 32.
Definition not32 (x : N) : N := N.lxor x 0xFFFFFFFF.
Definition rotl32 (x c : N) : N :=
  N.lor (N.shiftl x c mod 2 ^ 32) (N.shiftr x (32 - c)).

Definition K : list N :=
  [ 0xd76aa478; 0xe8c7b756; 0x242070db; 0xc1bdceee;
    0xf57c0faf; 0x4787c62a; 0xa8304613; 0xfd469501;
    0x698098d8; 0x8b44f7af; 0xffff5bb1; 0x895cd7be;
    0x6b901122; 0xfd987193; 0xa679438e; 0x49b40821;
    0xf61e2562; 0xc040b340; 0x265e5a51; 0xe9b6c7aa;
    0xd62f105d; 0x02441453; 0xd8a1e681; 0xe7d3fbc8;
    0x21e1cde6; 0xc33707d6; 0xf4d50d87; 0x455a14ed;
    0xa9e3e905; 0xfcefa3f8; 0x676f02d9; 0x8d2a4c8a;
    0xfffa3942; 0x8771f681; 0x6d9d6122; 0xfde5380c;
    0xa4beea44; 0x4bdecfa9; 0xf6bb4b60; 0xbebfbc70;
    0x289b7ec6; 0xeaa127fa; 0xd4ef3085; 0x04881d05;
    0xd9d4d039; 0xe6db99e5; 0x1fa27cf8; 0xc4ac5665;
    0xf4292244; 0x432aff97; 0xab9423a7; 0xfc93a039;
    0x655b59c3; 0x8f0ccc92; 0xffeff47d; 0x85845dd1;
    0x6fa87e4f; 0xfe2ce6e0; 0xa3014314; 0x4e0811a1;
    0xf7537e82; 0xbd3af235; 0x2ad7d2bb; 0xeb86d391 ].

Definition S_ : list N :=
  [ 7; 12; 17; 22; 7; 12; 17; 22; 7; 12; 17; 22; 7; 12; 17; 22;
    5; 9; 14; 20; 5; 9; 14; 20; 5; 9; 14; 20; 5; 9; 14; 20;
    4; 11; 16; 23; 4; 11; 16; 23; 4; 11; 16; 23; 4; 11; 16; 23;
    6; 10; 15; 21; 6; 10; 15; 21; 6; 10; 15; 21; 6; 10; 15; 21 ].

Definition nth_word (l : list N) (i : nat) : N := default 0 (l !! i).

Definition state : Type := N * N * N * N.

Definition init : state := (0x67452301, 0xefcdab89, 0x98badcfe, 0x10325476).

(** One of the 64 operations on the working registers. *)
Definition round (M : list N) (st : state) (i : nat) : state :=
  let '(A, B, C, D) := st in
  let '(F, g) :=
    if (i <? 16)%nat then (N.lor (N.land B C) (N.land (not32 B) D), i)
    else if (i <? 32)%nat then
      (N.lor (N.land D B) (N.land (not32 D) C), ((5 * i + 1) mod 16)%nat)
    else if (i <? 48)%nat then
      (N.lxor (N.lxor B C) D, ((3 * i + 5) mod 16)%nat)
    else (N.lxor C (N.lor B (not32 D)), ((7 * i) mod 16)%nat) in
  let F' := add32 (add32 (add32 F A) (nth_word K i)) (nth_word M g) in
  (D, add32 B (rotl32 F' (nth_word S_ i)), B, C).

Definition compress (st : state) (M : list N) : state :=
  let '(a0, b0, c0, d0) := st in
  let '(A, B, C, D) := foldl (round M) st (seq 0 64) in
  (add32 a0 A, add32 b0 B, add32 c0 C, add32 d0 D).

(** Little-endian 32-bit words of a byte list. *)
Fixpoint words (bs : list N) : list N :=
  match bs with
  | b0 :: b1 :: b2 :: b3 :: r =>
      (b0 + 2 ^ 8 * b1 + 2 ^ 16 * b2 + 2 ^ 24 * b3) :: words r
  | _ => []
  end.

Definition le_bytes (n : nat) (x : N) : list N :=
  (λ i, N.shiftr x (8 * N.of_nat i) mod 2 ^ 8) <$> seq 0 n.

Definition pad (msg : list N) : list N :=
  let len := N.of_nat (length msg) in
  msg ++ [0x80] ++ replicate (N.to_nat ((119 - len mod 64) mod 64)) 0
      ++ le_bytes 8 ((8 * len) mod 2 ^ 64).

Fixpoint blocks (n : nat) (ws : list N) : list (list N) :=
  match n with
  | O => []
  | S n' => take 16 ws :: blocks n' (drop 16 ws)
  end.

Definition digest (msg : list N) : list N :=
  let ws := words (pad msg) in
  let '(a, b, c, d) := foldl compress init (blocks (length ws / 16) ws) in
  le_bytes 4 a ++ le_bytes 4 b ++ le_bytes 4 c ++ le_bytes 4 d.

Definition hex_digit (d : N) : N := if d <? 10 then 48 + d else 87 + d.

Definition hex_byte (b : N) : list N := [hex_digit (b / 16); hex_digit (b mod 16)].

(** [hashlib.md5(msg).hexdigest()] *)
Definition hexdigest (msg : list N) : list N := digest msg ≫= hex_byte.

End Md5.


(** [s.encode()]: UTF-8. *)
Definition utf8_char (c : N) : list N :=
  if c <? 0x80 then [c]
  else if c <? 0x800 then [0xC0 + c / 2 ^ 6; 0x80 + c mod 2 ^ 6]
  else if c <? 0x10000 then
    [0xE0 + c / 2 ^ 12; 0x80 + (c / 2 ^ 6) mod 2 ^ 6; 0x80 + c mod 2 ^ 6]
  else
    [0xF0 + c / 2 ^ 18; 0x80 + (c / 2 ^ 12) mod 2 ^ 6;
     0x80 + (c / 2 ^ 6) mod 2 ^ 6; 0x80 + c mod 2 ^ 6].

Definition encode (s : str) : list N := s ≫= utf8_char.

(** ** [pathlib] and [os.path] *)

Definition dot : N := 46.
Definition slash : N := 47.
Definition dash : N := 45.
Definition underscore : N := 95.
Definition newline : N := 10.
Definition cr : N := 13.
Definition nl : str := [newline].

(** [Path(name).suffix] for a bare file name. *)
Definition suffix (name : str) : str :=
  match rfind dot name with
  | Some i => if bool_decide (0 < i < length name - 1)%nat then drop i name else []
  | None => []
  end.

(** [Path(name).stem] for a bare file name. *)
Definition stem (name : str) : str :=
  match rfind dot name with
  | Some i => if bool_decide (0 < i < length name - 1)%nat then take i name else name
  | None => name
  end.

(** [os.path.join(a, b)] (POSIX). *)
Definition join (a b : str) : str :=
  if bool_decide (head b = Some slash) then b
  else if bool_decide (a = [] ∨ last a = Some slash) then a ++ b
  else a ++ [slash] ++ b.

(** ** Reading a file as text: [open(f, 'r', encoding='utf-8', errors='replace')] *)

Definition in_range (lo hi b : N) : bool := (lo <=? b) && (b <=? hi).

(** U+FFFD, substituted for every ill-formed byte sequence. *)
Definition replacement : N := 0xFFFD.

(** The UTF-8 decoder with the [replace] error handler: total, one
    replacement character per maximal ill-formed prefix. *)
Fixpoint decode (bs : list N) : str :=
  match bs with
  | [] => []
  | b0 :: r0 =>
      if b0 <? 0x80 then b0 :: decode r0
      else if in_range 0xC2 0xDF b0 then
        match r0 with
        | [] => [replacement]
        | b1 :: r1 =>
            if in_range 0x80 0xBF b1
            then ((b0 - 0xC0) * 2 ^ 6 + (b1 - 0x80)) :: decode r1
            else replacement :: decode r0
        end
      else if in_range 0xE0 0xEF b0 then
        match r0 with
        | [] => [replacement]
        | b1 :: r1 =>
            if in_range (if b0 =? 0xE0 then 0xA0 else 0x80)
                        (if b0 =? 0xED then 0x9F else 0xBF) b1 then
              match r1 with
              | [] => [replacement]
              | b2 :: r2 =>
                  if in_range 0x80 0xBF b2
                  then ((b0 - 0xE0) * 2 ^ 12 + (b1 - 0x80) * 2 ^ 6 + (b2 - 0x80))
                         :: decode r2
                  else replacement :: decode r1
              end
            else replacement :: decode r0
        end
      else if in_range 0xF0 0xF4 b0 then
        match r0 with
        | [] => [replacement]
        | b1 :: r1 =>
            if in_range (if b0 =? 0xF0 then 0x90 else 0x80)
                        (if b0 =? 0xF4 then 0x8F else 0xBF) b1 then
              match r1 with
              | [] => [replacement]
              | b2 :: r2 =>
                  if in_range 0x80 0xBF b2 then
                    match r2 with
                    | [] => [replacement]
                    | b3 :: r3 =>
                        if in_range 0x80 0xBF b3
                        then ((b0 - 0xF0) * 2 ^ 18 + (b1 - 0x80) * 2 ^ 12
                              + (b2 - 0x80) * 2 ^ 6 + (b3 - 0x80)) :: decode r3
                        else replacement :: decode r2
                    end
                  else replacement :: decode r1
              end
            else replacement :: decode r0
        end
      else replacement :: decode r0
  end.

(** Universal newlines on reading: [\r\n] and a lone [\r] become [\n]. *)
Fixpoint universal_newlines (s : str) : str :=
  match s with
  | [] => []
  | c :: r =>
      if bool_decide (c = cr) then
        newline :: match r with
                   | [] => []
                   | c' :: r' =>
                       if bool_decide (c' = newline) then universal_newlines r'
                       else universal_newlines r
                   end
      else c :: universal_newlines r
  end.

(** What [src.read()] returns for a file holding the bytes [bs]. *)
Definition read_text (bs : list N) : str := universal_newlines (decode bs).

(** ** The source tree as [os.walk] sees it *)

(** What opening and reading a source file does: its bytes, or an
    exception with message [msg]. *)
Inductive read_result :=
  | ReadOk (bytes : list N)
  | ReadErr (msg : str).

(** What creating and writing the output file does: success, failure of
    [open] (nothing created), or a failure after the file was created, with
    [written] characters of it on disk. *)
Inductive write_result :=
  | WriteOk
  | OpenErr (msg : str)
  | WriteErr (written : nat) (msg : str).

Record fileio := {
  f_read : read_result;
  f_write : write_result;
  f_now : str                         (* [datetime.datetime.now()] at the copy *)
}.

(** A directory as [os.walk] lists it: its sub-directories and its other
    entries, each in the order of the listing.  A sub-directory the walk
    does not enter (a symbolic link, a directory it cannot list) shows as an
    empty one. *)
#[local] Unset Elimination Schemes.
Inductive tree :=
  | Dir (dirs : list (str * tree)) (files : list (str * fileio)).
#[local] Set Elimination Schemes.

Definition deps : str := lit "deps".

(** [dirs.remove(x)] on a listing, guarded by [x in dirs]: the first entry
    named [x] goes, if there is one. *)
Fixpoint remove_dir (x : str) (ds : list (str * tree)) : list (str * tree) :=
  match ds with
  | [] => []
  | (d, sub) :: r => if bool_decide (d = x) then r else (d, sub) :: remove_dir x r
  end.

(** [os.walk(top)], top-down, with the caller's pruning of [dirs] (lines 31
    and 32) between the yield and the descent: the triples [(root, files)] in
    the order they are yielded.  [removed] records that [deps] has been taken out of the
    current listing already. *)
Fixpoint os_walk (top : str) (t : tree) : list (str * list (str * fileio)) :=
  match t with
  | Dir dirs files =>
      (top, files) ::
      (fix descend (ds : list (str * tree)) (removed : bool) :=
         match ds with
         | [] => []
         | (d, sub) :: r =>
             if negb removed && bool_decide (d = deps) then descend r true
             else os_walk (join top d) sub ++ descend r removed
         end) dirs false
  end.

(** ** The converter *)

Definition ascii_alnum (c : N) : bool :=
  in_range 48 57 c || in_range 65 90 c || in_range 97 122 c.

(** What the interpreter and its platform fix: the classification of
    non-ASCII characters and [os.path.relpath]. *)
Record host := {
  uni_alnum : N → bool;
  relpath : str → str → str
}.

(** The run's surroundings. *)
Record env := {
  makedirs_error : option str;        (* [os.makedirs(output_dir, exist_ok=True)] *)
  open_log_error : option str;        (* [open(log_path, 'w', ...)] *)
  generated_on : str;                 (* [datetime.datetime.now()] of the log *)
  abs_source : str;                   (* [os.path.abspath(source_dir)] *)
  abs_output : str;                   (* [os.path.abspath(output_dir)] *)
  existing : gmap str str             (* files of the output directory before *)
}.

(** The values computed for one matched file (lines 39 to 53). *)
Record candidate := {
  source_file : str;
  base_name : str;
  original_ext : str;
  safe_name : str;
  new_filename : str
}.

(** One [log.write] of the loop. *)
Inductive entry :=
  | Success (path name : str)
  | Error (path msg : str).

Definition entry_path (e : entry) : str :=
  match e with Success p _ => p | Error p _ => p end.

Definition render (e : entry) : str :=
  match e with
  | Success p n => lit "SUCCESS: " ++ p ++ lit " -> " ++ n ++ nl
  | Error p m => lit "ERROR converting " ++ p ++ lit ": " ++ m ++ nl
  end.

(** The state the loop threads: the set, the log, the output directory, and
    the history of the per-file values. *)
Record state := {
  processed_files : gset str;
  log : list entry;
  out : gmap str str;
  trace : list candidate
}.

Inductive outcome :=
  | Raised (error : str) (out : gmap str str)
  | Finished (st : state).

(** The test of line 36. *)
Definition matches (file : str) : bool :=
  endswith file (lit ".ex") || endswith file (lit ".exs").

(** [path_hash] (line 52): the first eight hex digits of the MD5 of the
    encoded path. *)
Definition path_hash (path : str) : str := take 8 (Md5.hexdigest (encode path)).

Definition sep80 : str := replicate 80 61.

(** The strings passed to [dst.write], in order. *)
Definition dst_writes (file rel ext now content : str) : list str :=
  [ sep80 ++ nl;
    lit "FILE METADATA" ++ nl;
    sep80 ++ nl;
    lit "Original filename: " ++ file ++ nl;
    lit "Original path: " ++ rel ++ nl;
    lit "Original extension: " ++ ext ++ nl;
    lit "Conversion date: " ++ now ++ nl;
    sep80 ++ nl ++ nl;
    content ].

(** The strings passed to [log.write] before the walk. *)
Definition log_header (e : env) : list str :=
  [ lit "Elixir Files Conversion Log" ++ nl;
    lit "Generated on: " ++ generated_on e ++ nl;
    lit "Source directory: " ++ abs_source e ++ nl;
    lit "Output directory: " ++ abs_output e ++ nl ++ nl ].

Definition log_text (e : env) (st : state) : str :=
  concat (log_header e ++ (render <$> log st)).

Section Converter.

Context (h : host).

(** [c.isalnum()] *)
Definition isalnum (c : N) : bool :=
  if c <? 128 then ascii_alnum c else uni_alnum h c.

Definition safe_char (c : N) : N :=
  if isalnum c || bool_decide (c = dash) || bool_decide (c = underscore)
  then c else underscore.

(** Lines 39 to 53. *)
Definition name_file (seen : gset str) (root file : str) : candidate :=
  let source_file := join root file in
  let base_name := stem file in
  let original_ext := suffix file in
  let safe_name := (safe_char <$> base_name) ++ original_ext in
  let new_filename := safe_name ++ lit ".txt" in
  let new_filename :=
    if decide (new_filename ∈ seen)
    then safe_name ++ lit "_" ++ path_hash source_file ++ lit ".txt"
    else new_filename in
  {| source_file := source_file; base_name := base_name;
     original_ext := original_ext; safe_name := safe_name;
     new_filename := new_filename |}.

(** The body of the inner loop (lines 35 to 79) for one entry of [files]. *)
Definition process_file (source_dir : str) (st : state) (root file : str)
    (io : fileio) : state :=
  if negb (matches file) then st
  else
    let c := name_file (processed_files st) root file in
    let seen := {[new_filename c]} ∪ processed_files st in
    let failed (o : gmap str str) (msg : str) :=
      {| processed_files := seen;
         log := log st ++ [Error (source_file c) msg];
         out := o;
         trace := trace st ++ [c] |} in
    match f_read io with
    | ReadErr msg => failed (out st) msg
    | ReadOk bytes =>
        let content := read_text bytes in
        let text :=
          concat (dst_writes file (relpath h (source_file c) source_dir)
                    (original_ext c) (f_now io) content) in
        match f_write io with
        | OpenErr msg => failed (out st) msg
        | WriteErr n msg => failed (<[new_filename c := take n text]> (out st)) msg
        | WriteOk =>
            {| processed_files := seen;
               log := log st ++ [Success (source_file c) (new_filename c)];
               out := <[new_filename c := text]> (out st);
               trace := trace st ++ [c] |}
        end
    end.

(** [for file in files: ...] *)
Definition process_dir (source_dir : str) (st : state)
    (y : str * list (str * fileio)) : state :=
  foldl (λ st '(file, io), process_file source_dir st y.1 file io) st y.2.

Definition start (e : env) : state :=
  {| processed_files := ∅; log := []; out := existing e; trace := [] |}.

(** [convert_elixir_to_txt(source_dir, output_dir)], run over the tree [t]
    found at [source_dir]; [output_dir] is present through [e]: what creating
    it and opening the log in it do, and the files it holds. *)
Definition convert_elixir_to_txt (e : env) (source_dir : str) (t : tree) : outcome :=
  match makedirs_error e with
  | Some err => Raised err (existing e)
  | None =>
      match open_log_error e with
      | Some err => Raised err (existing e)
      | None => Finished (foldl (process_dir source_dir) (start e) (os_walk source_dir t))
      end
  end.

End Converter.

(** ** Vocabulary of the statements *)

(** The entries of [files] in the order the loop meets them, each with the
    [root] it was yielded under. *)
Definition walk_files (top : str) (t : tree) : list (str * str * fileio) :=
  os_walk top t ≫= λ y, (λ '(file, io), (y.1, file, io)) <$> y.2.

(** The tree read as the specification speaks of it: every file of the
    tree with the chain of directory names leading to it from the top. *)
Fixpoint spec_files (t : tree) : list (list str * str * fileio) :=
  match t with
  | Dir dirs files =>
      ((λ '(file, io), ([], file, io)) <$> files) ++
      (fix below (ds : list (str * tree)) :=
         match ds with
         | [] => []
         | (d, sub) :: r =>
             ((λ '(chain, file, io), (d :: chain, file, io)) <$> spec_files sub)
               ++ below r
         end) dirs
  end.

(** The path string the walk builds for a file reached through [chain]. *)
Definition path_of (top : str) (chain : list str) (file : str) : str :=
  join (foldl join top chain) file.

(** "Located under a directory literally named deps, at any depth". *)
Definition under_deps (chain : list str) : bool := bool_decide (deps ∈ chain).

(** A directory entry name: not empty, no separator in it. *)
Definition good_name (n : str) : bool :=
  negb (bool_decide (n = [])) && bool_decide (slash ∉ n).

(** A listing a file system can produce: good names, no name twice among
    the sub-directories nor among the files of one directory. *)
Fixpoint wf_tree (t : tree) : bool :=
  match t with
  | Dir dirs files =>
      bool_decide (NoDup dirs.*1) && bool_decide (NoDup files.*1)
      && forallb good_name dirs.*1 && forallb good_name files.*1
      && (fix all (ds : list (str * tree)) :=
            match ds with
            | [] => true
            | (_, sub) :: r => wf_tree sub && all r
            end) dirs
  end.

(** The message of the exception the copy of a file raises, if any. *)
Definition failure (io : fileio) : option str :=
  match f_read io with
  | ReadErr msg => Some msg
  | ReadOk _ =>
      match f_write io with
      | WriteOk => None
      | OpenErr msg => Some msg
      | WriteErr _ msg => Some msg
      end
  end.

(** The text after the first [n] lines. *)
Fixpoint skip_lines (n : nat) (s : str) {struct s} : str :=
  match n, s with
  | O, _ => s
  | _, [] => []
  | S n', c :: r =>
      if bool_decide (c = newline) then skip_lines n' r else skip_lines n r
  end.

(** A Unicode scalar value: a code point that is not a surrogate. *)
Definition scalar (c : N) : bool := (c <? 0xD800) || in_range 0xE000 0x10FFFF c.

Definition hex_char (c : N) : bool := in_range 48 57 c || in_range 97 102 c.

(** Number of log records about the source path [p]. *)
Definition lines_about (p : str) (l : list entry) : nat :=
  length (filter (λ e, entry_path e = p) l).

(** A file of the tree as the loop meets it: its root and name. *)
Definition visited (top : str) (x : list str * str * fileio) : str * str * fileio :=
  (foldl join top x.1.1, x.1.2, x.2).

Definition outside_deps (x : list str * str * fileio) : Prop :=
  under_deps x.1.1 = false.

Definition file_path (top : str) (x : list str * str * fileio) : str :=
  path_of top x.1.1 x.1.2.

(** One turn of the inner loop, on an entry paired with its root. *)
Definition step (h : host) (source_dir : str) (st : state)
    (x : str * str * fileio) : state :=
  process_file h source_dir st x.1.1 x.1.2 x.2.

Definition matched {A} (x : A * str * fileio) : Prop := matches x.1.2 = true.

#[global] Instance matched_dec {A} (x : A * str * fileio) : Decision (matched x).
Proof. unfold matched. apply _. Defined.

(** The record the loop writes for a file, given the values computed for it. *)
Definition entry_for (c : candidate) (io : fileio) : entry :=
  match failure io with
  | Some msg => Error (source_file c) msg
  | None => Success (source_file c) (new_filename c)
  end.

(** What [join] puts in front of a name: [a], with a separator unless [a]
    is empty or ends in one. *)
Definition dir_prefix (a : str) : str :=
  if bool_decide (a = [] ∨ last a = Some slash) then a else a ++ [slash].

(** The path of a file relative to the top: the chain and the name, with
    separators. *)
Definition rel_path (chain : list str) (file : str) : str :=
  (chain ≫= λ d, d ++ [slash]) ++ file.

(** Where a file is in the tree. *)
Definition place (x : list str * str * fileio) : list str * str := x.1.

Definition good_place (k : list str * str) : Prop :=
  Forall (λ n, good_name n = true) k.1 ∧ good_name k.2 = true.

(** A file the specification wants converted: a matching name, outside
    every directory named deps. *)
Definition eligible (x : list str * str * fileio) : Prop :=
  matched x ∧ outside_deps x.

#[global] Instance eligible_dec x : Decision (eligible x).
Proof. unfold eligible, outside_deps. apply _. Defined.

(** The names of the entries the loop meets, without what they hold. *)
Definition walk_names (top : str) (t : tree) : list (str * str) :=
  fst <$> walk_files top t.


(** The nine lines of the header of an output file, the last one blank. *)
Definition header_lines (file rel ext now : str) : list str :=
  [ sep80; lit "FILE METADATA"; sep80;
    lit "Original filename: " ++ file;
    lit "Original path: " ++ rel;
    lit "Original extension: " ++ ext;
    lit "Conversion date: " ++ now;
    sep80; [] ].

(** The two shapes of a final name, and what the loop keeps true of the
    history: final names pairwise distinct and all in the set. *)
Definition well_named (c : candidate) : Prop :=
  (∃ pre ch, safe_name c = pre ++ [ch] ∧ hex_char ch = false)
  ∧ (new_filename c = safe_name c ++ lit ".txt"
     ∨ new_filename c = safe_name c ++ lit "_" ++ path_hash (source_file c) ++ lit ".txt").

Definition names_distinct (st : state) : Prop :=
  NoDup (new_filename <$> trace st)
  ∧ (∀ c, c ∈ trace st → new_filename c ∈ processed_files st)
  ∧ (∀ c, c ∈ trace st → well_named c).

(** ** Sample inputs *)

(** A host for ASCII names: its classification of other characters is
    never consulted on them; [relpath] drops the top and its separator. *)
Definition ascii_host : host :=
  {| uni_alnum := λ _, false;
     relpath := λ path start, drop (length start + 1) path |}.

Definition quiet : env :=
  {| makedirs_error := None; open_log_error := None;
     generated_on := lit "2024-05-01 10:00:00.000000";
     abs_source := lit "/work"; abs_output := lit "/work/out";
     existing := ∅ |}.

Definition readable (bytes : list N) : fileio :=
  {| f_read := ReadOk bytes; f_write := WriteOk;
     f_now := lit "2024-05-01 10:00:01.000000" |}.

Definition unreadable (msg : str) : fileio :=
  {| f_read := ReadErr msg; f_write := WriteOk;
     f_now := lit "2024-05-01 10:00:01.000000" |}.

Definition foo_source : list N := lit "defmodule Foo do" ++ nl ++ lit "end" ++ nl.

(** A project with a source file, a script, a file that is not Elixir and
    a [deps] directory holding Elixir files at two depths. *)
Definition project : tree :=
  Dir [ (lit "lib", Dir [] [ (lit "foo.ex", readable foo_source) ]);
        (deps, Dir [ (lit "sub", Dir [] [ (lit "ignored.ex", readable foo_source) ]) ]
                   [ (lit "dep.ex", readable foo_source) ]) ]
      [ (lit "README.md", readable (lit "# readme"));
        (lit "mix.exs", unreadable (lit "[Errno 13] Permission denied")) ].

(** The state after two files named [util.ex], of the directories [a] and
    [b], have been converted. *)
Definition after_two_utils : state :=
  process_file ascii_host (lit ".")
    (process_file ascii_host (lit ".") (start quiet) (lit "./a") (lit "util.ex")
       (readable foo_source))
    (lit "./b") (lit "util.ex") (readable foo_source).

(** Three files named [util.ex]; the MD5 digests of the paths of the two in
    the sub-directories start with the same eight hex digits. *)
Definition clash_tree : tree :=
  Dir [ (lit "m1042", Dir [] [ (lit "util.ex", readable (lit "first")) ]);
        (lit "m7693", Dir [] [ (lit "util.ex", readable (lit "second")) ]) ]
      [ (lit "util.ex", readable (lit "top")) ].

(** The project again at a later time: same names, other contents, other
    failures, and an output directory that is not empty. *)
Definition project_later : tree :=
  Dir [ (lit "lib", Dir [] [ (lit "foo.ex", unreadable (lit "[Errno 5] Input/output error")) ]);
        (deps, Dir [ (lit "sub", Dir [] [ (lit "other.ex", readable []) ]) ] []) ]
      [ (lit "README.md", readable []);
        (lit "mix.exs", readable (lit "use Mix.Project")) ].

Definition busy : env :=
  {| makedirs_error := None; open_log_error := None;
     generated_on := lit "2025-01-01 00:00:00.000000";
     abs_source := lit "/work"; abs_output := lit "/work/out2";
     existing := {[ lit "foo.ex.txt" := lit "old" ]} |}.

(** A source saved in Latin-1 with a DOS line end: the byte [0xE9] is not
    UTF-8. *)
Definition latin1_source : list N := lit "# caf" ++ [0xE9; cr; newline].

(** ** The rest of the script *)

(** The name of the log inside the output directory (line 19). *)
Definition log_name : str := lit "_conversion_log.txt".

(** [output_file] of line 56. *)
Definition output_file (output_dir : str) (c : candidate) : str :=
  join output_dir (new_filename c).

(** [main()] (lines 81 to 93), given the formatted time of line 86 and the
    tree found at the current directory: what the conversion does, and the
    arguments of the calls of [print] that follow it. *)
Definition main (h : host) (e : env) (timestamp : str) (t : tree)
    : outcome * list str :=
  let source_dir := lit "." in
  let output_dir := lit "elixir_txt_" ++ timestamp in
  match convert_elixir_to_txt h e source_dir t with
  | Raised err o => (Raised err o, [])
  | Finished st =>
      (Finished st,
       [ lit "Elixir files have been converted to text format in: " ++ output_dir;
         lit "Check _conversion_log.txt in the output directory for details" ])
  end.

(** ** Vocabulary of the further properties *)

(** A character an output name can hold. *)
Definition allowed (h : host) (c : N) : bool :=
  isalnum h c || bool_decide (c = dash) || bool_decide (c = underscore)
  || bool_decide (c = dot).

(** A character the safe name keeps as it is. *)
Definition kept (h : host) (c : N) : bool :=
  isalnum h c || bool_decide (c = dash) || bool_decide (c = underscore).

(** A record of the history comes from a matched file name. *)
Definition named_by (h : host) (c : candidate) : Prop :=
  ∃ seen root file, matches file = true ∧ c = name_file h seen root file.

(** The whole text written for an entry whose bytes were read (lines 66 to
    74). *)
Definition output_text (h : host) (source_dir : str) (x : str * str * fileio)
    (c : candidate) (bytes : list N) : str :=
  concat (dst_writes x.1.2 (relpath h (source_file c) source_dir)
            (original_ext c) (f_now x.2) (read_text bytes)).

(** What the copy of a matched entry leaves under its name. *)
Definition copied (h : host) (source_dir : str) (final : gmap str str)
    (x : str * str * fileio) (c : candidate) : Prop :=
  source_file c = join x.1.1 x.1.2
  ∧ match f_read x.2, f_write x.2 with
    | ReadOk bytes, WriteOk =>
        final !! new_filename c = Some (output_text h source_dir x c bytes)
    | ReadOk bytes, WriteErr n _ =>
        final !! new_filename c = Some (take n (output_text h source_dir x c bytes))
    | _, _ => True
    end.

Definition count_newlines (s : str) : nat :=
  length (filter (λ c, c = newline) s).

(** A record whose line holds no newline but the final one. *)
Definition one_line (en : entry) : Prop :=
  match en with
  | Success p n => (newline ∉ p) ∧ (newline ∉ n)
  | Error p m => (newline ∉ p) ∧ (newline ∉ m)
  end.

(** A sub-directory holding files only, named as the run names its
    products. *)
Definition products (st : state) (fs : list (str * fileio)) : Prop :=
  Forall (λ f, f.1 = log_name ∨ f.1 ∈ dom (out st)) fs.

(** ** Further sample inputs *)

(** The states the two sample runs end in. *)
Definition project_run : state :=
  foldl (step ascii_host (lit ".")) (start quiet) (walk_files (lit ".") project).

Definition later_run : state :=
  foldl (step ascii_host (lit ".")) (start busy) (walk_files (lit ".") project_later).

(** A tree with nothing to convert: one file that does not match, one that
    matches below [deps]. *)
Definition nothing_eligible : tree :=
  Dir [ (deps, Dir [] [ (lit "dep.ex", readable foo_source) ]) ]
      [ (lit "README.md", readable (lit "# readme")) ].

Definition idle_run : state :=
  foldl (step ascii_host (lit ".")) (start busy) (walk_files (lit ".") nothing_eligible).

(** A text with an accented letter, and the time of a call of [main]. *)
Definition cafe_text : str := lit "# caf" ++ [0xE9; newline].

Definition main_time : str := lit "20240501_100000".

(** ** Tactics *)

(** Refutes a decidable statement on closed terms by evaluation. *)
Ltac refute :=
  let H := fresh in
  intros H; apply (bool_decide_pack _) in H; vm_compute in H; exact H.

(** Linear arithmetic with division and remainder by constants; a quotient
    under a remainder is named first, so that it is known not to be negative. *)
Ltac div_lia :=
  change (2 ^ 6) with 64 in *; change (2 ^ 12) with 4096 in *;
  change (2 ^ 18) with 262144 in *;
  repeat match goal with
    | |- context [(?a / ?b) mod ?d] =>
        let q := fresh "q" in let Hq := fresh "Hq" in remember (a / b) as q eqn:Hq
    end;
  zify; Z.to_euclidean_division_equations; lia.

(** Turns the boolean tests of the context into arithmetic. *)
Ltac tests :=
  unfold in_range, scalar, replacement in * |-;
  repeat match goal with
    | H : _ && _ = true |- _ => apply andb_true_iff in H as [? ?]
    | H : _ && _ = false |- _ => apply andb_false_iff in H; destruct H as [H|H]
    | H : _ || _ = true |- _ => apply orb_true_iff in H; destruct H as [H|H]
    | H : _ || _ = false |- _ => apply orb_false_iff in H as [? ?]
    | H : (_ <=? _) = true |- _ => apply N.leb_le in H
    | H : (_ <=? _) = false |- _ => apply N.leb_gt in H
    | H : (_ <? _) = true |- _ => apply N.ltb_lt in H
    | H : (_ <? _) = false |- _ => apply N.ltb_ge in H
    | H : (_ =? _) = true |- _ => apply N.eqb_eq in H
    | H : (_ =? _) = false |- _ => apply N.eqb_neq in H
    end.

(** ** Trees: induction and the equations of the traversals *)

Lemma tree_ind (P : tree → Prop) :
  (∀ dirs files, Forall (λ d, P d.2) dirs → P (Dir dirs files)) → ∀ t, P t.
Proof.
  intros step. fix IH 1. intros [dirs files]. apply step.
  induction dirs as [|[d sub] r IHr]; constructor; [apply IH | exact IHr].
Qed.

Lemma os_walk_eq top dirs files :
  os_walk top (Dir dirs files) =
  (top, files) :: (remove_dir deps dirs ≫= λ d, os_walk (join top d.1) d.2).
Proof.
  simpl. f_equal.
  assert (Htrue : ∀ ds,
    (fix descend (ds : list (str * tree)) (removed : bool) :=
       match ds with
       | [] => []
       | (d, sub) :: r =>
           if negb removed && bool_decide (d = deps) then descend r true
           else os_walk (join top d) sub ++ descend r removed
       end) ds true = ds ≫= λ d, os_walk (join top d.1) d.2).
  { induction ds as [|[d sub] r IHr]; [done|]. simpl. by rewrite IHr. }
  induction dirs as [|[d sub] r IHr]; [done|]. simpl.
  case_bool_decide; simpl; [apply Htrue | by rewrite IHr].
Qed.

Lemma spec_files_eq dirs files :
  spec_files (Dir dirs files) =
  ((λ '(file, io), ([], file, io)) <$> files) ++
  (dirs ≫= λ d, (λ '(chain, file, io), (d.1 :: chain, file, io)) <$> spec_files d.2).
Proof.
  simpl. f_equal. induction dirs as [|[d sub] r IHr]; [done|]. simpl. by rewrite IHr.
Qed.

Lemma forallb_Forall {A} (f : A → bool) (l : list A) :
  forallb f l = true ↔ Forall (λ x, f x = true) l.
Proof.
  induction l as [|x l IH]; simpl.
  - split; [constructor | done].
  - rewrite andb_true_iff, Forall_cons, IH. done.
Qed.

Lemma wf_tree_eq dirs files :
  wf_tree (Dir dirs files) = true ↔
  NoDup dirs.*1 ∧ NoDup files.*1 ∧ Forall (λ n, good_name n = true) dirs.*1
  ∧ Forall (λ n, good_name n = true) files.*1 ∧ Forall (λ d, wf_tree d.2 = true) dirs.
Proof.
  simpl. rewrite !andb_true_iff, !bool_decide_eq_true, !forallb_Forall.
  assert ((fix all (ds : list (str * tree)) :=
            match ds with
            | [] => true
            | (_, sub) :: r => wf_tree sub && all r
            end) dirs = true ↔ Forall (λ d, wf_tree d.2 = true) dirs) as ->.
  { induction dirs as [|[d sub] r IHr]; simpl.
    - split; [constructor | done].
    - rewrite andb_true_iff, Forall_cons, IHr. done. }
  tauto.
Qed.

Lemma bind_ext_in {A B} (f g : A → list B) (l : list A) :
  (∀ x, x ∈ l → f x = g x) → l ≫= f = l ≫= g.
Proof.
  induction l as [|x l IH]; intros Hfg; [done|].
  rewrite !bind_cons, Hfg, IH; [done| |left]. intros y Hy. apply Hfg. by right.
Qed.

Lemma remove_dir_bind {B} (g : str * tree → list B) (ds : list (str * tree)) :
  NoDup ds.*1 →
  remove_dir deps ds ≫= g = ds ≫= λ d, if bool_decide (d.1 = deps) then [] else g d.
Proof.
  induction ds as [|[d sub] r IH]; [done|].
  rewrite fmap_cons, NoDup_cons, bind_cons. intros [Hd Hr].
  cbn [remove_dir fst]. case_bool_decide as Hdeps.
  - subst d. apply bind_ext_in. intros [d' sub'] Hin. cbn [fst].
    rewrite bool_decide_eq_false_2; [done|]. intros ->. apply Hd.
    apply list_elem_of_fmap. by exists (deps, sub').
  - rewrite bind_cons, IH; done.
Qed.

Lemma filter_bind {A B} (P : B → Prop) `{!∀ x, Decision (P x)} (f : A → list B) l :
  filter P (l ≫= f) = l ≫= λ x, filter P (f x).
Proof.
  induction l as [|x l IH]; [done|]. by rewrite !bind_cons, filter_app, IH.
Qed.

Lemma fmap_bind_list {A B C} (g : B → C) (f : A → list B) (l : list A) :
  g <$> (l ≫= f) = l ≫= λ x, g <$> f x.
Proof.
  induction l as [|x l IH]; [done|]. by rewrite !bind_cons, fmap_app, IH.
Qed.

Lemma walk_files_eq top dirs files :
  walk_files top (Dir dirs files) =
  ((λ '(file, io), (top, file, io)) <$> files)
    ++ (remove_dir deps dirs ≫= λ d, walk_files (join top d.1) d.2).
Proof.
  unfold walk_files. rewrite os_walk_eq, bind_cons. f_equal.
  induction (remove_dir deps dirs) as [|d r IH]; [done|].
  by rewrite !bind_cons, bind_app, IH.
Qed.

Lemma under_deps_cons d chain :
  under_deps (d :: chain) = bool_decide (d = deps) || under_deps chain.
Proof.
  unfold under_deps. apply eq_true_iff_eq.
  rewrite orb_true_iff, !bool_decide_eq_true, elem_of_cons.
  split; (intros [?|?]; [by left | by right]).
Qed.

Lemma filter_below d (l : list (list str * str * fileio)) :
  filter outside_deps ((λ '(chain, file, io), (d :: chain, file, io)) <$> l) =
  if bool_decide (d = deps) then []
  else (λ '(chain, file, io), (d :: chain, file, io)) <$> filter outside_deps l.
Proof.
  induction l as [|[[ch f] io] l IH]; [by case_bool_decide|].
  rewrite fmap_cons.
  assert (Hiff : outside_deps (d :: ch, f, io) ↔ d ≠ deps ∧ outside_deps (ch, f, io)).
  { unfold outside_deps. cbn [fst]. rewrite under_deps_cons, orb_false_iff.
    by rewrite bool_decide_eq_false. }
  destruct (decide (d = deps)) as [Hd|Hd].
  - rewrite bool_decide_eq_true_2 in * by done.
    by rewrite filter_cons_False by tauto.
  - rewrite bool_decide_eq_false_2 in * by done.
    destruct (decide (outside_deps (ch, f, io))) as [Hout|Hout].
    + rewrite (filter_cons_True _ (ch, f, io)) by done.
      rewrite filter_cons_True by tauto. by rewrite IH.
    + rewrite (filter_cons_False _ (ch, f, io)) by done.
      by rewrite filter_cons_False by tauto.
Qed.

(** The loop meets exactly the files of the tree that lie outside every
    directory named deps, in the order of the tree. *)
Lemma walk_files_spec t : ∀ top,
  wf_tree t = true →
  walk_files top t = visited top <$> filter outside_deps (spec_files t).
Proof.
  induction t as [dirs files IH] using tree_ind. intros top Hwf.
  apply wf_tree_eq in Hwf as (Hdirs & _ & _ & _ & Hsub).
  rewrite walk_files_eq, spec_files_eq, filter_app, fmap_app. f_equal.
  - clear. induction files as [|[f io] r IHr]; [done|].
    rewrite !fmap_cons, filter_cons_True by done. rewrite fmap_cons, IHr. done.
  - rewrite remove_dir_bind by done. rewrite filter_bind, fmap_bind_list.
    apply bind_ext_in. intros [d sub] Hin. simpl.
    rewrite Forall_forall in IH, Hsub.
    case_bool_decide as Hd.
    + subst d. by rewrite filter_below, bool_decide_eq_true_2.
    + rewrite (IH _ Hin) by (by apply (Hsub _ Hin)).
      rewrite filter_below, bool_decide_eq_false_2 by done. cbn [snd].
      rewrite <- list_fmap_compose. apply list_fmap_ext. by intros _ [[ch f] io] _.
Qed.

(** ** The loop *)

Section Loop.

Context (h : host) (source_dir : str).

Lemma loop_flat ys st :
  foldl (process_dir h source_dir) st ys =
  foldl (step h source_dir) st (ys ≫= λ y, (λ '(file, io), (y.1, file, io)) <$> y.2).
Proof.
  revert st. induction ys as [|[root files] ys IH]; intros st; [done|].
  rewrite bind_cons, foldl_app. cbn [foldl]. rewrite IH. f_equal.
  unfold process_dir. cbn [fst snd]. clear. revert st.
  induction files as [|[f io] r IHr]; intros st; [done|]. cbn. apply IHr.
Qed.

Lemma convert_finished e t :
  makedirs_error e = None → open_log_error e = None →
  convert_elixir_to_txt h e source_dir t =
  Finished (foldl (step h source_dir) (start e) (walk_files source_dir t)).
Proof.
  intros Hm Ho. unfold convert_elixir_to_txt. rewrite Hm, Ho. by rewrite loop_flat.
Qed.

Lemma step_skip st x : ¬ matched x → step h source_dir st x = st.
Proof.
  unfold matched, step, process_file. intros Hm. by destruct (matches x.1.2).
Qed.

(** A matched file adds exactly one record to the log and one to the
    history, and its final name to the set, whatever the copy does. *)
Lemma step_matched st x :
  matched x →
  let c := name_file h (processed_files st) x.1.1 x.1.2 in
  let st' := step h source_dir st x in
  processed_files st' = {[new_filename c]} ∪ processed_files st
  ∧ log st' = log st ++ [entry_for c x.2]
  ∧ trace st' = trace st ++ [c].
Proof.
  unfold matched, step, process_file, entry_for, failure. intros ->. cbn [negb].
  destruct (f_read x.2); [destruct (f_write x.2)|]; done.
Qed.

Lemma loop_log_paths l : ∀ st,
  entry_path <$> log (foldl (step h source_dir) st l) =
  (entry_path <$> log st) ++ ((λ x, join x.1.1 x.1.2) <$> filter matched l).
Proof.
  induction l as [|x l IH]; intros st; cbn [foldl].
  - by rewrite filter_nil, app_nil_r.
  - rewrite IH. destruct (decide (matched x)) as [Hm|Hm].
    + rewrite filter_cons_True by done.
      destruct (step_matched st x Hm) as (_ & -> & _).
      rewrite fmap_app, <- app_assoc. f_equal. cbn. f_equal.
      unfold entry_for. by destruct (failure x.2).
    + by rewrite filter_cons_False, step_skip.
Qed.

Lemma loop_trace_paths l : ∀ st,
  source_file <$> trace (foldl (step h source_dir) st l) =
  (source_file <$> trace st) ++ ((λ x, join x.1.1 x.1.2) <$> filter matched l).
Proof.
  induction l as [|x l IH]; intros st; cbn [foldl].
  - by rewrite filter_nil, app_nil_r.
  - rewrite IH. destruct (decide (matched x)) as [Hm|Hm].
    + rewrite filter_cons_True by done.
      destruct (step_matched st x Hm) as (_ & _ & ->).
      by rewrite fmap_app, <- app_assoc.
    + by rewrite filter_cons_False, step_skip.
Qed.

End Loop.

(** ** Paths *)

Lemma good_name_spec n : good_name n = true ↔ n ≠ [] ∧ slash ∉ n.
Proof.
  unfold good_name. rewrite andb_true_iff, negb_true_iff.
  by rewrite bool_decide_eq_false, bool_decide_eq_true.
Qed.

Lemma join_good a n : good_name n = true → join a n = dir_prefix a ++ n.
Proof.
  intros [Hne Hs]%good_name_spec. unfold join, dir_prefix.
  rewrite bool_decide_eq_false_2.
  - case_bool_decide; [done|]. by rewrite <- app_assoc.
  - destruct n as [|c n]; [done|]. cbn. intros [= ->]. apply Hs. left.
Qed.

Lemma dir_prefix_good a n :
  good_name n = true → dir_prefix (dir_prefix a ++ n) = dir_prefix a ++ n ++ [slash].
Proof.
  intros [Hne Hs]%good_name_spec. unfold dir_prefix at 1.
  rewrite bool_decide_eq_false_2; [by rewrite <- app_assoc|].
  intros [Hnil|Hlast].
  - by apply app_eq_nil in Hnil as [_ ?].
  - rewrite last_app in Hlast. destruct (last n) as [c|] eqn:Hn.
    + injection Hlast as ->. apply Hs. apply last_Some in Hn as [l' ->].
      apply elem_of_app. right. left.
    + by apply last_None in Hn.
Qed.

Lemma path_of_rel chain : ∀ top file,
  good_place (chain, file) →
  path_of top chain file = dir_prefix top ++ rel_path chain file.
Proof.
  unfold path_of, rel_path, good_place. cbn [fst snd].
  induction chain as [|d r IH]; intros top file [Hch Hf].
  - by apply join_good.
  - apply Forall_cons in Hch as [Hd Hr]. cbn [foldl].
    rewrite IH by done. rewrite (join_good _ d), dir_prefix_good by done.
    rewrite bind_cons. by rewrite <- !app_assoc.
Qed.

Lemma app_slash_inj (a b x y : str) :
  slash ∉ a → slash ∉ b → a ++ slash :: x = b ++ slash :: y → a = b ∧ x = y.
Proof.
  revert b. induction a as [|c a IH]; intros [|c' b] Ha Hb; cbn; intros Heq.
  - by injection Heq.
  - injection Heq as <- _. exfalso. apply Hb. left.
  - injection Heq as -> _. exfalso. apply Ha. left.
  - injection Heq as -> Heq. apply not_elem_of_cons in Ha as [_ Ha].
    apply not_elem_of_cons in Hb as [_ Hb].
    destruct (IH b Ha Hb Heq) as [-> ->]. done.
Qed.

Lemma rel_path_cons d r file : rel_path (d :: r) file = d ++ slash :: rel_path r file.
Proof. unfold rel_path. by rewrite bind_cons, <- !app_assoc. Qed.

Lemma rel_path_inj k1 k2 :
  good_place k1 → good_place k2 →
  rel_path k1.1 k1.2 = rel_path k2.1 k2.2 → k1 = k2.
Proof.
  destruct k1 as [c1 f1], k2 as [c2 f2]. unfold good_place. cbn [fst snd].
  revert c2. induction c1 as [|d1 r1 IH]; intros [|d2 r2] [Hc1 Hf1] [Hc2 Hf2] Heq.
  - unfold rel_path in Heq. cbn in Heq. by subst.
  - exfalso. apply good_name_spec in Hf1 as [_ Hf1]. apply Hf1.
    rewrite rel_path_cons in Heq. change (rel_path [] f1) with f1 in Heq.
    rewrite Heq. apply elem_of_app. right. left.
  - exfalso. apply good_name_spec in Hf2 as [_ Hf2]. apply Hf2.
    rewrite rel_path_cons in Heq. change (rel_path [] f2) with f2 in Heq.
    rewrite <- Heq. apply elem_of_app. right. left.
  - apply Forall_cons in Hc1 as [Hd1 Hr1]. apply Forall_cons in Hc2 as [Hd2 Hr2].
    rewrite !rel_path_cons in Heq.
    apply good_name_spec in Hd1 as [_ Hd1]. apply good_name_spec in Hd2 as [_ Hd2].
    apply app_slash_inj in Heq as [-> Heq]; [|done..].
    specialize (IH r2 (conj Hr1 Hf1) (conj Hr2 Hf2) Heq). by injection IH as -> ->.
Qed.

Lemma path_of_inj top k1 k2 :
  good_place k1 → good_place k2 →
  path_of top k1.1 k1.2 = path_of top k2.1 k2.2 → k1 = k2.
Proof.
  intros H1 H2 Heq. apply rel_path_inj; [done..|].
  destruct k1, k2. rewrite !path_of_rel in Heq by done. by apply app_inv_head in Heq.
Qed.

Lemma elem_of_spec_files_dir x dirs files :
  x ∈ spec_files (Dir dirs files) ↔
  (x.1.1 = [] ∧ (x.1.2, x.2) ∈ files)
  ∨ ∃ d y, d ∈ dirs ∧ y ∈ spec_files d.2 ∧ x = (d.1 :: y.1.1, y.1.2, y.2).
Proof.
  rewrite spec_files_eq, elem_of_app, list_elem_of_fmap, list_elem_of_bind.
  split.
  - intros [([f io] & -> & Hin)|(d & Hx & Hd)]; [by left|right].
    apply list_elem_of_fmap in Hx as ([[ch f] io] & -> & Hy).
    by exists d, (ch, f, io).
  - destruct x as [[ch f] io]. intros [[Hch Hin]|(d & [[ch' f'] io'] & Hd & Hy & Hx)].
    + left. cbn in Hch, Hin. subst ch. by exists (f, io).
    + right. exists d. split; [|done]. apply list_elem_of_fmap.
      by exists (ch', f', io').
Qed.

Lemma spec_files_good t :
  wf_tree t = true → Forall (λ x, good_place (place x)) (spec_files t).
Proof.
  induction t as [dirs files IH] using tree_ind. intros Hwf.
  apply wf_tree_eq in Hwf as (_ & _ & Hgd & Hgf & Hsub).
  pose proof (proj1 (Forall_forall _ _) IH) as IH'. clear IH.
  rewrite Forall_forall in Hsub. rewrite Forall_forall in Hgd.
  rewrite Forall_forall in Hgf. apply Forall_forall.
  intros [[ch f] io] [[Hch Hin]|(d & y & Hd & Hy & Hx)]%elem_of_spec_files_dir.
  - cbn in Hch, Hin. subst ch. split; [constructor|]. cbn.
    apply Hgf, list_elem_of_fmap. by exists (f, io).
  - injection Hx as -> -> ->.
    pose proof (proj1 (Forall_forall _ _) (IH' d Hd (Hsub d Hd)) y Hy) as [Hc Hf].
    split; [|done]. cbn. constructor; [|done].
    apply Hgd, list_elem_of_fmap. by exists d.
Qed.

Lemma spec_files_NoDup t : wf_tree t = true → NoDup (place <$> spec_files t).
Proof.
  induction t as [dirs files IH] using tree_ind. intros Hwf.
  apply wf_tree_eq in Hwf as (Hnd & Hnf & _ & _ & Hsub).
  rewrite spec_files_eq, fmap_app. apply NoDup_app. split_and!.
  - rewrite <- list_fmap_compose.
    rewrite (list_fmap_ext _ (pair [] ∘ fst) files) by (by intros ? [??] ?).
    rewrite list_fmap_compose. apply NoDup_fmap_2; [|done]. by intros ?? [= ->].
  - intros k Hk1 Hk2.
    apply list_elem_of_fmap in Hk1 as (x1 & -> & Hx1).
    apply list_elem_of_fmap in Hx1 as ([f io] & -> & _).
    apply list_elem_of_fmap in Hk2 as (x2 & Heq & Hx2).
    apply list_elem_of_bind in Hx2 as (d & Hx2 & _).
    apply list_elem_of_fmap in Hx2 as ([[ch' f'] io'] & -> & _). done.
  - clear Hnf. induction dirs as [|[d sub] r IHr]; [constructor|].
    rewrite fmap_cons, NoDup_cons in Hnd. destruct Hnd as [Hd Hr].
    apply Forall_cons in IH as [IHd IHrest]. apply Forall_cons in Hsub as [Hwd Hwr].
    rewrite bind_cons, fmap_app. apply NoDup_app. split_and!.
    + cbn [fst snd]. rewrite <- list_fmap_compose.
      rewrite (list_fmap_ext _ ((λ k, (d :: k.1, k.2)) ∘ place) (spec_files sub))
        by (by intros ? [[??]?] ?).
      rewrite list_fmap_compose. apply NoDup_fmap_2; [|by apply IHd].
      by intros [??] [??] [= -> ->].
    + intros k Hk1 Hk2.
      apply list_elem_of_fmap in Hk1 as (x1 & -> & Hx1).
      apply list_elem_of_fmap in Hx1 as ([[ch f] io] & -> & _).
      apply list_elem_of_fmap in Hk2 as (x2 & Heq & Hx2).
      apply list_elem_of_bind in Hx2 as (d' & Hx2 & Hd').
      apply list_elem_of_fmap in Hx2 as ([[ch' f'] io'] & -> & _).
      injection Heq as -> _ _. apply Hd, list_elem_of_fmap. by exists d'.
    + by apply IHr.
Qed.

(** The path strings of the files of a well-formed tree are pairwise distinct. *)
Lemma paths_NoDup top t :
  wf_tree t = true → NoDup (file_path top <$> spec_files t).
Proof.
  intros Hwf.
  rewrite (list_fmap_ext _ ((λ k, path_of top k.1 k.2) ∘ place) (spec_files t))
    by done.
  rewrite list_fmap_compose. apply NoDup_fmap_2_strong; [|by apply spec_files_NoDup].
  pose proof (spec_files_good t Hwf) as Hgood. rewrite Forall_forall in Hgood.
  intros k1 k2 (x1 & -> & H1)%list_elem_of_fmap (x2 & -> & H2)%list_elem_of_fmap.
  apply path_of_inj; by apply Hgood.
Qed.

Lemma file_path_inj top t x y :
  wf_tree t = true → x ∈ spec_files t → y ∈ spec_files t →
  file_path top x = file_path top y → place x = place y.
Proof.
  intros Hwf Hx Hy. pose proof (spec_files_good t Hwf) as Hgood.
  rewrite Forall_forall in Hgood. apply path_of_inj; by apply Hgood.
Qed.

(** ** Counting *)

Lemma filter_fmap_comm {A B} (P : B → Prop) `{!∀ y, Decision (P y)} (f : A → B)
    (l : list A) :
  filter P (f <$> l) = f <$> filter (λ x, P (f x)) l.
Proof.
  induction l as [|x l IH]; [done|]. rewrite fmap_cons, !filter_cons, IH.
  by destruct (decide (P (f x))).
Qed.

Lemma NoDup_fmap_filter {A B} (P : A → Prop) `{!∀ x, Decision (P x)} (f : A → B)
    (l : list A) :
  NoDup (f <$> l) → NoDup (f <$> filter P l).
Proof.
  induction l as [|x l IH]; [done|]. rewrite fmap_cons, NoDup_cons, filter_cons.
  intros [Hx Hl]. destruct (decide (P x)); [|by apply IH].
  rewrite fmap_cons, NoDup_cons. split; [|by apply IH].
  intros (y & Hy & Hin%list_elem_of_filter)%list_elem_of_fmap.
  apply Hx, list_elem_of_fmap. exists y. tauto.
Qed.

Lemma NoDup_count (l : list str) p :
  NoDup l → length (filter (λ q, q = p) l) = if decide (p ∈ l) then 1%nat else 0%nat.
Proof.
  induction l as [|x l IH]; [done|]. rewrite NoDup_cons. intros [Hx Hl].
  rewrite filter_cons. destruct (decide (x = p)) as [->|Hne]; cbn [length]; rewrite (IH Hl).
  - rewrite (decide_True (P := p ∈ p :: l)) by left.
    by rewrite (decide_False (P := p ∈ l)).
  - destruct (decide (p ∈ l)).
    + by rewrite (decide_True (P := p ∈ x :: l)) by (by right).
    + rewrite (decide_False (P := p ∈ x :: l)); [done|].
      by intros [->|?]%elem_of_cons.
Qed.

Lemma lines_about_paths p (l : list entry) :
  lines_about p l = length (filter (λ q, q = p) (entry_path <$> l)).
Proof. unfold lines_about. by rewrite filter_fmap_comm, length_fmap. Qed.

(** ** What a finished run has logged *)

Section Run.

Context (h : host) (source_dir : str).

Lemma filter_matched_visited top (l : list (list str * str * fileio)) :
  filter matched (visited top <$> l) = visited top <$> filter matched l.
Proof. by rewrite filter_fmap_comm. Qed.

(** The records of the log and of the history are about the eligible files
    of the tree, one each, in the order of the tree. *)
Lemma run_paths e t :
  wf_tree t = true →
  let st := foldl (step h source_dir) (start e) (walk_files source_dir t) in
  entry_path <$> log st = file_path source_dir <$> filter eligible (spec_files t)
  ∧ source_file <$> trace st = file_path source_dir <$> filter eligible (spec_files t).
Proof.
  intros Hwf st. subst st.
  rewrite loop_log_paths, loop_trace_paths, walk_files_spec by done.
  rewrite filter_matched_visited, <- list_fmap_compose, list_filter_filter. done.
Qed.

Lemma run_lines_about e t x :
  wf_tree t = true → x ∈ spec_files t →
  let st := foldl (step h source_dir) (start e) (walk_files source_dir t) in
  lines_about (file_path source_dir x) (log st) =
  if decide (eligible x) then 1%nat else 0%nat.
Proof.
  intros Hwf Hx st. subst st. rewrite lines_about_paths.
  destruct (run_paths e t Hwf) as [-> _].
  rewrite NoDup_count by (by apply NoDup_fmap_filter, paths_NoDup).
  destruct (decide (eligible x)) as [He|He].
  - rewrite decide_True; [done|]. apply list_elem_of_fmap_2. by apply list_elem_of_filter.
  - rewrite decide_False; [done|].
    intros (y & Heq & [Hy Hin]%list_elem_of_filter)%list_elem_of_fmap.
    apply He. pose proof (file_path_inj _ t x y Hwf Hx Hin Heq) as Hp.
    destruct x as [k ?], y as [k' ?]. cbn in Hp. subst k'. exact Hy.
Qed.

End Run.

(** ** Invariants of the loop *)

Section Invariants.

Context (h : host) (source_dir : str).

Lemma loop_ind (P : state → Prop) l : ∀ st,
  P st → (∀ st x, P st → P (step h source_dir st x)) →
  P (foldl (step h source_dir) st l).
Proof.
  induction l as [|x l IH]; intros st H0 Hstep; [done|]. cbn [foldl].
  apply IH; [by apply Hstep | done].
Qed.

Lemma step_cases st x :
  (¬ matched x ∧ step h source_dir st x = st)
  ∨ (matched x ∧
     let c := name_file h (processed_files st) x.1.1 x.1.2 in
     let st' := step h source_dir st x in
     processed_files st' = {[new_filename c]} ∪ processed_files st
     ∧ log st' = log st ++ [entry_for c x.2]
     ∧ trace st' = trace st ++ [c]).
Proof.
  destruct (decide (matched x)) as [Hm|Hm].
  - right. split; [done|]. by apply step_matched.
  - left. split; [done|]. by apply step_skip.
Qed.

(** Only the file under the name just assigned can change. *)
Lemma step_out st x n :
  out (step h source_dir st x) !! n ≠ out st !! n →
  matched x ∧ n = new_filename (name_file h (processed_files st) x.1.1 x.1.2).
Proof.
  unfold matched, step, process_file. destruct (matches x.1.2); cbn [negb]; [|done].
  intros Hne. split; [done|].
  destruct (decide (n = new_filename (name_file h (processed_files st) x.1.1 x.1.2)))
    as [|Hn]; [done|]. exfalso. apply Hne.
  destruct (f_read x.2); [destruct (f_write x.2)|]; cbn [out];
    by rewrite ?lookup_insert_ne.
Qed.

Lemma step_trace_mono st x c : c ∈ trace st → c ∈ trace (step h source_dir st x).
Proof.
  intros Hc. destruct (step_cases st x) as [[_ ->]|(_ & _ & _ & ->)]; [done|].
  apply elem_of_app. by left.
Qed.

(** Every file of the output directory that the run created or changed
    carries a name the loop assigned. *)
Lemma loop_out_changed e l :
  let st := foldl (step h source_dir) (start e) l in
  ∀ n, out st !! n ≠ existing e !! n → ∃ c, c ∈ trace st ∧ new_filename c = n.
Proof.
  apply (loop_ind (λ st, ∀ n, out st !! n ≠ existing e !! n →
                           ∃ c, c ∈ trace st ∧ new_filename c = n)); [done|].
  intros st x IH n Hn.
  destruct (decide (out (step h source_dir st x) !! n = out st !! n)) as [Heq|Hne].
  - rewrite Heq in Hn. destruct (IH n Hn) as (c & Hc & <-).
    exists c. split; [by apply step_trace_mono|done].
  - apply step_out in Hne as [Hm ->].
    destruct (step_matched h source_dir st x Hm) as (_ & _ & ->).
    eexists. split; [|done]. apply elem_of_app. right. left.
Qed.



Lemma processed_mono l : ∀ st,
  processed_files st ⊆ processed_files (foldl (step h source_dir) st l).
Proof.
  induction l as [|x l IH]; intros st; cbn [foldl]; [done|].
  etrans; [|apply IH].
  destruct (step_cases st x) as [[_ ->]|(_ & -> & _)]; set_solver.
Qed.

(** The set and the history after the loop are functions of the names met. *)
Lemma loop_names_only l1 : ∀ l2 st1 st2,
  fst <$> l1 = fst <$> l2 →
  processed_files st1 = processed_files st2 → trace st1 = trace st2 →
  processed_files (foldl (step h source_dir) st1 l1)
  = processed_files (foldl (step h source_dir) st2 l2)
  ∧ trace (foldl (step h source_dir) st1 l1) = trace (foldl (step h source_dir) st2 l2).
Proof.
  induction l1 as [|x1 l1 IH]; intros [|x2 l2] st1 st2 Hn Hs Ht; try done.
  rewrite !fmap_cons in Hn. injection Hn as Hx Hn. cbn [foldl].
  apply IH; [done|..].
  - destruct (step_cases st1 x1) as [[Hm1 ->]|(Hm1 & -> & _)];
      destruct (step_cases st2 x2) as [[Hm2 ->]|(Hm2 & -> & _)];
      unfold matched in *; rewrite ?Hx, ?Hs in *; done.
  - destruct (step_cases st1 x1) as [[Hm1 ->]|(Hm1 & _ & _ & ->)];
      destruct (step_cases st2 x2) as [[Hm2 ->]|(Hm2 & _ & _ & ->)];
      unfold matched in *; rewrite ?Hx, ?Hs, ?Ht in *; done.
Qed.

End Invariants.

(** ** The digest *)

Lemma le_bytes_length n x : length (Md5.le_bytes n x) = n.
Proof. unfold Md5.le_bytes. by rewrite length_fmap, length_seq. Qed.

Lemma le_bytes_small n x : Forall (λ b, b < 256) (Md5.le_bytes n x).
Proof.
  unfold Md5.le_bytes. apply Forall_fmap, Forall_forall. intros i _. cbn.
  change (2 ^ 8) with 256. by apply N.mod_lt.
Qed.

Lemma digest_bytes msg :
  length (Md5.digest msg) = 16%nat ∧ Forall (λ b, b < 256) (Md5.digest msg).
Proof.
  unfold Md5.digest.
  destruct (foldl Md5.compress Md5.init _) as [[[a b] c] d]. split.
  - by rewrite !length_app, !le_bytes_length.
  - rewrite !Forall_app. auto using le_bytes_small.
Qed.

Lemma hex_digit_char d : d < 16 → hex_char (Md5.hex_digit d) = true.
Proof.
  intros Hd. unfold hex_char, Md5.hex_digit, in_range.
  destruct (d <? 10) eqn:Hlt; [apply N.ltb_lt in Hlt | apply N.ltb_ge in Hlt];
    rewrite orb_true_iff, !andb_true_iff, !N.leb_le; lia.
Qed.

Lemma hex_bytes_chars (l : list N) :
  Forall (λ b, b < 256) l →
  length (l ≫= Md5.hex_byte) = (2 * length l)%nat
  ∧ Forall (λ c, hex_char c = true) (l ≫= Md5.hex_byte).
Proof.
  induction l as [|b l IH]; intros Hsmall; [by split|].
  apply Forall_cons in Hsmall as [Hb Hl]. destruct (IH Hl) as [IH1 IH2].
  rewrite bind_cons. split.
  - rewrite length_app, IH1. cbn. lia.
  - apply Forall_app. split; [|done]. unfold Md5.hex_byte.
    repeat constructor; apply hex_digit_char.
    + apply N.Div0.div_lt_upper_bound. lia.
    + by apply N.mod_lt.
Qed.

Lemma hexdigest_chars msg :
  length (Md5.hexdigest msg) = 32%nat
  ∧ Forall (λ c, hex_char c = true) (Md5.hexdigest msg).
Proof.
  unfold Md5.hexdigest. destruct (digest_bytes msg) as [Hlen Hsmall].
  destruct (hex_bytes_chars _ Hsmall) as [H1 H2]. split; [|done].
  by rewrite H1, Hlen.
Qed.

Lemma path_hash_chars path :
  length (path_hash path) = 8%nat ∧ Forall (λ c, hex_char c = true) (path_hash path).
Proof.
  unfold path_hash. destruct (hexdigest_chars (encode path)) as [Hlen Hhex]. split.
  - rewrite length_take, Hlen. done.
  - by apply Forall_take.
Qed.

(** ** Names *)

Lemma endswith_spec s suf : endswith s suf = true ↔ ∃ pre, s = pre ++ suf.
Proof.
  unfold endswith. rewrite bool_decide_eq_true. split.
  - intros Hd. exists (take (length s - length suf) s).
    rewrite <- Hd at 2. by rewrite take_drop.
  - intros [pre ->]. rewrite length_app.
    replace (length pre + length suf - length suf)%nat with (length pre) by lia.
    by rewrite drop_app_length.
Qed.

Lemma rfind_None c s : rfind c s = None ↔ c ∉ s.
Proof.
  induction s as [|x s IH]; cbn.
  - split; [intros _; by apply not_elem_of_nil | done].
  - rewrite not_elem_of_cons. destruct (rfind c s) as [i|].
    + split; [done|]. intros [_ Hs]. by apply IH in Hs.
    + case_bool_decide as Hx.
      * split; [done|]. intros [Hne _]. congruence.
      * split; [|done]. intros _. split; [congruence | by apply IH].
Qed.

Lemma rfind_last c pre r : c ∉ r → rfind c (pre ++ c :: r) = Some (length pre).
Proof.
  intros Hr. induction pre as [|x pre IH]; cbn.
  - apply rfind_None in Hr as ->. by rewrite bool_decide_eq_true_2.
  - by rewrite IH.
Qed.

Lemma stem_suffix name : stem name ++ suffix name = name.
Proof.
  unfold stem, suffix. destruct (rfind dot name) as [i|]; [|by rewrite app_nil_r].
  case_bool_decide; [apply take_drop | by rewrite app_nil_r].
Qed.

(** A name whose last dot is at index [length pre] and is followed by at
    least one character. *)
Lemma split_at_last_dot pre ext :
  dot ∉ ext → ext ≠ [] →
  stem (pre ++ dot :: ext) = (if decide (pre = []) then pre ++ dot :: ext else pre)
  ∧ suffix (pre ++ dot :: ext) = (if decide (pre = []) then [] else dot :: ext).
Proof.
  intros Hdot Hext. unfold stem, suffix. rewrite rfind_last by done.
  rewrite length_app. cbn [length].
  destruct ext as [|e ext]; [done|]. cbn [length].
  destruct (decide (pre = [])) as [->|Hpre].
  - by rewrite bool_decide_eq_false_2 by (cbn; lia).
  - rewrite bool_decide_eq_true_2.
    + by rewrite take_app_length, drop_app_length.
    + destruct pre; [done|]. cbn. lia.
Qed.

(** The extension of a matched name is [.ex] or [.exs], or it is empty and
    the name is all extension. *)
Lemma matched_suffix file :
  matches file = true →
  (∃ pre, pre ≠ [] ∧ stem file = pre ∧
     ((file = pre ++ lit ".ex" ∧ suffix file = lit ".ex")
      ∨ (file = pre ++ lit ".exs" ∧ suffix file = lit ".exs")))
  ∨ ((file = lit ".ex" ∨ file = lit ".exs") ∧ stem file = file ∧ suffix file = []).
Proof.
  unfold matches. rewrite orb_true_iff, !endswith_spec.
  assert (H1 : dot ∉ lit "ex") by refute.
  assert (H2 : dot ∉ lit "exs") by refute.
  intros [[pre ->]|[pre ->]].
  - destruct (split_at_last_dot pre (lit "ex") H1) as [Hs Hx]; [done|].
    change (lit ".ex") with (dot :: lit "ex").
    destruct (decide (pre = [])) as [->|Hpre]; [right; by auto|].
    left. exists pre. by auto.
  - destruct (split_at_last_dot pre (lit "exs") H2) as [Hs Hx]; [done|].
    change (lit ".exs") with (dot :: lit "exs").
    destruct (decide (pre = [])) as [->|Hpre]; [right; by auto|].
    left. exists pre. by auto 6.
Qed.

(** ** Decoding *)

Lemma list_length_ind {A} (P : list A → Prop) :
  (∀ l, (∀ l', (length l' < length l)%nat → P l') → P l) → ∀ l, P l.
Proof.
  intros step l. remember (length l) as n eqn:Hn. revert l Hn.
  induction n as [n IH] using lt_wf_ind. intros l ->.
  apply step. intros l' Hl'. by apply (IH (length l')).
Qed.

Lemma scalar_spec c :
  scalar c = true ↔ c < 0xD800 ∨ (0xE000 <= c ∧ c <= 0x10FFFF).
Proof.
  unfold scalar, in_range. rewrite orb_true_iff, andb_true_iff, N.ltb_lt, !N.leb_le.
  done.
Qed.

(** Whatever the bytes, decoding yields scalar values only. *)
Lemma decode_scalar bs : Forall (λ c, scalar c = true) (decode bs).
Proof.
  induction bs as [bs IH] using list_length_ind.
  destruct bs as [|b0 r0]; [constructor|]. cbn [decode].
  assert (IH0 : Forall (λ c, scalar c = true) (decode r0)) by (apply IH; cbn; lia).
  destruct (b0 <? 0x80) eqn:H0.
  { constructor; [|done]. apply scalar_spec. tests. lia. }
  destruct (in_range 0xC2 0xDF b0) eqn:H2.
  { destruct r0 as [|b1 r1]; [by repeat constructor|].
    destruct (in_range 0x80 0xBF b1) eqn:H21; [|by constructor].
    constructor; [|apply IH; cbn; lia]. apply scalar_spec. tests. lia. }
  destruct (in_range 0xE0 0xEF b0) eqn:H3.
  { destruct r0 as [|b1 r1]; [by repeat constructor|].
    destruct (in_range _ _ b1) eqn:H31; [|by constructor].
    assert (IH1 : Forall (λ c, scalar c = true) (decode r1)) by (apply IH; cbn; lia).
    destruct r1 as [|b2 r2]; [by repeat constructor|].
    destruct (in_range 0x80 0xBF b2) eqn:H32; [|by constructor].
    constructor; [|apply IH; cbn; lia]. apply scalar_spec.
    destruct (b0 =? 0xE0) eqn:Ha; destruct (b0 =? 0xED) eqn:Hb; tests; lia. }
  destruct (in_range 0xF0 0xF4 b0) eqn:H4; [|by constructor].
  destruct r0 as [|b1 r1]; [by repeat constructor|].
  destruct (in_range _ _ b1) eqn:H41; [|by constructor].
  assert (IH1 : Forall (λ c, scalar c = true) (decode r1)) by (apply IH; cbn; lia).
  destruct r1 as [|b2 r2]; [by repeat constructor|].
  destruct (in_range 0x80 0xBF b2) eqn:H42; [|by constructor].
  assert (IH2 : Forall (λ c, scalar c = true) (decode r2)) by (apply IH; cbn; lia).
  destruct r2 as [|b3 r3]; [by repeat constructor|].
  destruct (in_range 0x80 0xBF b3) eqn:H43; [|by constructor].
  constructor; [|apply IH; cbn; lia]. apply scalar_spec.
  destruct (b0 =? 0xF0) eqn:Ha; destruct (b0 =? 0xF4) eqn:Hb; tests; lia.
Qed.

Lemma in_range_true lo hi b : lo <= b → b <= hi → in_range lo hi b = true.
Proof. intros. unfold in_range. by rewrite andb_true_iff, !N.leb_le. Qed.

Lemma in_range_false lo hi b : b < lo ∨ hi < b → in_range lo hi b = false.
Proof. intros. unfold in_range. rewrite andb_false_iff, !N.leb_gt. done. Qed.

(** Decoding undoes the encoding of a scalar value. *)
Lemma decode_utf8_char c rest :
  scalar c = true → decode (utf8_char c ++ rest) = c :: decode rest.
Proof.
  intros Hc%scalar_spec. unfold utf8_char.
  destruct (c <? 0x80) eqn:H1.
  { cbn [app decode]. by rewrite H1. }
  destruct (c <? 0x800) eqn:H2.
  { cbn [app decode]. tests.
    replace (0xC0 + c / 2 ^ 6 <? 0x80) with false by (symmetry; apply N.ltb_ge; div_lia).
    rewrite (in_range_true 0xC2 0xDF) by div_lia.
    rewrite (in_range_true 0x80 0xBF) by div_lia.
    f_equal. div_lia. }
  destruct (c <? 0x10000) eqn:H3.
  { cbn [app decode]. tests.
    replace (0xE0 + c / 2 ^ 12 <? 0x80) with false by (symmetry; apply N.ltb_ge; div_lia).
    rewrite (in_range_false 0xC2 0xDF) by div_lia.
    rewrite (in_range_true 0xE0 0xEF) by div_lia.
    rewrite (in_range_true _ _ (0x80 + (c / 2 ^ 6) mod 2 ^ 6)).
    - rewrite (in_range_true 0x80 0xBF) by div_lia. f_equal. div_lia.
    - destruct (_ =? 0xE0) eqn:Ha; tests; div_lia.
    - destruct (_ =? 0xED) eqn:Hb; tests; div_lia. }
  cbn [app decode]. tests.
  replace (0xF0 + c / 2 ^ 18 <? 0x80) with false by (symmetry; apply N.ltb_ge; div_lia).
  rewrite (in_range_false 0xC2 0xDF) by div_lia.
  rewrite (in_range_false 0xE0 0xEF) by div_lia.
  rewrite (in_range_true 0xF0 0xF4) by div_lia.
  rewrite (in_range_true _ _ (0x80 + (c / 2 ^ 12) mod 2 ^ 6)).
  - rewrite !(in_range_true 0x80 0xBF) by div_lia. f_equal. div_lia.
  - destruct (_ =? 0xF0) eqn:Ha; tests; div_lia.
  - destruct (_ =? 0xF4) eqn:Hb; tests; div_lia.
Qed.

Lemma decode_encode s : Forall (λ c, scalar c = true) s → decode (encode s) = s.
Proof.
  induction 1 as [|c s Hc Hs IH]; [done|].
  unfold encode in *. by rewrite bind_cons, decode_utf8_char, IH.
Qed.

(** ** Newlines *)

Lemma universal_newlines_keeps (P : N → Prop) s :
  P newline → Forall P s → Forall P (universal_newlines s).
Proof.
  intros H10. induction s as [s IH] using list_length_ind. intros Hs.
  destruct s as [|c r]; [constructor|]. apply Forall_cons in Hs as [Hc Hr].
  cbn [universal_newlines]. case_bool_decide.
  - constructor; [done|]. destruct r as [|c' r']; [constructor|].
    apply Forall_cons in Hr as [Hc' Hr']. case_bool_decide.
    + apply IH; [cbn; lia | done].
    + apply IH; [cbn; lia | by constructor].
  - constructor; [done|]. apply IH; [cbn; lia | done].
Qed.

Lemma universal_newlines_no_cr s : cr ∉ universal_newlines s.
Proof.
  induction s as [s IH] using list_length_ind.
  destruct s as [|c r]; [apply not_elem_of_nil|].
  cbn [universal_newlines]. case_bool_decide.
  - apply not_elem_of_cons. split; [done|]. destruct r as [|c' r']; [apply not_elem_of_nil|].
    case_bool_decide; apply IH; cbn; lia.
  - apply not_elem_of_cons. split; [done|]. apply IH. cbn. lia.
Qed.

Lemma universal_newlines_id s : cr ∉ s → universal_newlines s = s.
Proof.
  induction s as [|c r IH]; [done|]. intros [Hc Hr]%not_elem_of_cons.
  cbn [universal_newlines]. rewrite bool_decide_eq_false_2 by done. by rewrite IH.
Qed.

Lemma read_text_scalar bs : Forall (λ c, scalar c = true) (read_text bs).
Proof. apply universal_newlines_keeps; [done | apply decode_scalar]. Qed.

(** Reading back the encoded text gives the text. *)
Lemma read_text_round_trip bs : read_text (encode (read_text bs)) = read_text bs.
Proof.
  unfold read_text at 1. rewrite decode_encode by apply read_text_scalar.
  apply universal_newlines_id, universal_newlines_no_cr.
Qed.

(** ** The header *)

Lemma skip_lines_0 s : skip_lines 0 s = s.
Proof. by destruct s. Qed.

Lemma skip_lines_line a rest n :
  newline ∉ a → skip_lines (S n) (a ++ newline :: rest) = skip_lines n rest.
Proof.
  induction a as [|c a IH]; cbn [app skip_lines].
  - intros _. by rewrite bool_decide_eq_true_2.
  - intros [Hc Ha]%not_elem_of_cons. rewrite bool_decide_eq_false_2 by done. by apply IH.
Qed.

Lemma skip_lines_lines (ls : list str) rest :
  Forall (λ l, newline ∉ l) ls →
  skip_lines (length ls) ((ls ≫= λ l, l ++ nl) ++ rest) = rest.
Proof.
  induction 1 as [|l ls Hl Hls IH]; [apply skip_lines_0|].
  rewrite bind_cons, <- !app_assoc. cbn [length nl app].
  by rewrite skip_lines_line.
Qed.

Lemma dst_writes_header file rel ext now content :
  concat (dst_writes file rel ext now content)
  = (header_lines file rel ext now ≫= λ l, l ++ nl) ++ content.
Proof.
  unfold dst_writes, header_lines. cbn [concat mbind list_bind].
  rewrite <- !app_assoc. cbn [app]. by rewrite app_nil_r.
Qed.

Lemma suffix_keeps (P : N → Prop) name : Forall P name → Forall P (suffix name).
Proof.
  intros Hn. unfold suffix. destruct (rfind dot name); [|constructor].
  case_bool_decide; [by apply Forall_drop | constructor].
Qed.

Lemma header_lines_no_newline file rel ext now :
  newline ∉ file → newline ∉ rel → newline ∉ ext → newline ∉ now →
  Forall (λ l, newline ∉ l) (header_lines file rel ext now).
Proof.
  intros Hf Hr He Hn. unfold header_lines.
  assert (Hsep : newline ∉ sep80) by refute.
  assert (Happ : ∀ a b : list N, newline ∉ a → newline ∉ b → newline ∉ a ++ b).
  { intros a b Ha Hb [?|?]%elem_of_app; tauto. }
  repeat apply Forall_cons_2; try apply Forall_nil; try done;
    try apply not_elem_of_nil; try (apply Happ; [refute | done]); refute.
Qed.

(** ** Distinct names, short of a clash of hash prefixes *)

Section Unique.

Context (h : host) (source_dir : str).

Lemma safe_char_ascii_alnum c :
  c < 128 → ascii_alnum c = true → safe_char h c = c.
Proof.
  intros Hc Ha. unfold safe_char, isalnum.
  apply N.ltb_lt in Hc. by rewrite Hc, Ha.
Qed.

(** The safe name of a matched file ends in [x] or [s], not in a hex digit. *)
Lemma safe_name_last seen root file :
  matches file = true →
  ∃ pre ch, safe_name (name_file h seen root file) = pre ++ [ch] ∧ hex_char ch = false.
Proof.
  intros Hm. cbn [name_file safe_name].
  destruct (matched_suffix file Hm)
    as [(pre & _ & -> & [[_ ->]|[_ ->]])|([->| ->] & -> & ->)].
  - exists ((safe_char h <$> pre) ++ lit ".e"), 120.
    rewrite <- app_assoc. split; reflexivity.
  - exists ((safe_char h <$> pre) ++ lit ".ex"), 115.
    rewrite <- app_assoc. split; reflexivity.
  - exists [safe_char h dot; safe_char h 101], 120. split; reflexivity.
  - exists [safe_char h dot; safe_char h 101; safe_char h 120], 115.
    split; reflexivity.
Qed.

Lemma name_file_well_named seen root file :
  matches file = true → well_named (name_file h seen root file).
Proof.
  intros Hm. split; [by apply safe_name_last|].
  cbn [name_file new_filename safe_name source_file]. case_decide; auto.
Qed.

Lemma plain_is_not_hashed (safe1 safe2 hash : str) pre ch :
  safe1 = pre ++ [ch] → hex_char ch = false →
  length hash = 8%nat → Forall (λ c, hex_char c = true) hash →
  safe1 ++ lit ".txt" ≠ safe2 ++ lit "_" ++ hash ++ lit ".txt".
Proof.
  intros -> Hch Hlen Hhex Heq. rewrite !app_assoc in Heq.
  apply app_inv_tail in Heq.
  destruct (last hash) as [d|] eqn:Hlast.
  - apply last_Some in Hlast as [hash' ->]. rewrite !app_assoc in Heq.
    apply app_inj_2 in Heq as [_ [= ->]]; [|done].
    apply Forall_app in Hhex as [_ Hd]. apply Forall_inv in Hd.
    cbn beta in Hd. congruence.
  - apply last_None in Hlast. by subst hash.
Qed.

Lemma hashed_inj (safe1 safe2 hash1 hash2 : str) :
  length hash1 = 8%nat → length hash2 = 8%nat →
  safe1 ++ lit "_" ++ hash1 ++ lit ".txt" = safe2 ++ lit "_" ++ hash2 ++ lit ".txt" →
  safe1 = safe2 ∧ hash1 = hash2.
Proof.
  intros H1 H2 Heq. rewrite !app_assoc in Heq. apply app_inv_tail in Heq.
  apply app_inj_2 in Heq as [Heq ->]; [|congruence].
  by apply app_inv_tail in Heq.
Qed.

(** One turn keeps the final names distinct when the path of the file is
    new and its hash prefix is that of no earlier path. *)
Lemma step_names_distinct st x :
  names_distinct st →
  (∀ c, c ∈ trace st → source_file c ≠ join x.1.1 x.1.2) →
  (∀ c, c ∈ trace st →
     path_hash (source_file c) = path_hash (join x.1.1 x.1.2) →
     source_file c = join x.1.1 x.1.2) →
  names_distinct (step h source_dir st x).
Proof.
  intros (Hnd & Hin & Hwn) Hnew Hinj.
  destruct (step_cases h source_dir st x) as [[_ ->]|(Hm & Hs & _ & Ht)]; [done|].
  cbn zeta in Hs, Ht. set (c := name_file h (processed_files st) x.1.1 x.1.2) in *.
  pose proof (name_file_well_named (processed_files st) x.1.1 x.1.2 Hm) as Hc.
  fold c in Hc. unfold names_distinct. rewrite Ht, Hs. split_and!.
  - rewrite fmap_app. apply NoDup_app. split_and!; [done| |by apply NoDup_singleton].
    intros n (c0 & -> & Hc0)%list_elem_of_fmap Hn.
    apply list_elem_of_singleton in Hn.
    destruct (path_hash_chars (source_file c)) as [Hlen Hhex].
    destruct (path_hash_chars (source_file c0)) as [Hlen0 Hhex0].
    subst c. unfold name_file in Hn. cbn [new_filename] in Hn. case_decide as Hseen.
    + (* the new name is hashed *)
      destruct (Hwn c0 Hc0) as [(pre & ch & Hpre & Hch) [Hplain|Hhashed]].
      * rewrite Hplain in Hn.
        exact (plain_is_not_hashed _ _ _ pre ch Hpre Hch Hlen Hhex Hn).
      * rewrite Hhashed in Hn. apply hashed_inj in Hn as [_ Hh]; [|done..].
        by apply (Hnew c0 Hc0), Hinj.
    + (* the new name is the candidate, which is not in the set *)
      apply Hseen. rewrite <- Hn. by apply Hin.
  - intros c0 [Hc0| ->%list_elem_of_singleton]%elem_of_app.
    + apply elem_of_union. right. by apply Hin.
    + apply elem_of_union. left. by apply elem_of_singleton.
  - intros c0 [Hc0| ->%list_elem_of_singleton]%elem_of_app; [by apply Hwn | done].
Qed.

Lemma loop_names_distinct l : ∀ st,
  names_distinct st →
  NoDup ((source_file <$> trace st) ++ ((λ x, join x.1.1 x.1.2) <$> filter matched l)) →
  (∀ p q, p ∈ (source_file <$> trace st) ++ ((λ x, join x.1.1 x.1.2) <$> filter matched l) →
          q ∈ (source_file <$> trace st) ++ ((λ x, join x.1.1 x.1.2) <$> filter matched l) →
          path_hash p = path_hash q → p = q) →
  names_distinct (foldl (step h source_dir) st l).
Proof.
  induction l as [|x l IH]; intros st Hst Hnd Hinj; [done|]. cbn [foldl].
  destruct (decide (matched x)) as [Hm|Hm].
  - rewrite filter_cons_True in Hnd, Hinj by done. rewrite fmap_cons in Hnd, Hinj.
    destruct (step_matched h source_dir st x Hm) as (_ & _ & Ht). cbn zeta in Ht.
    apply IH.
    + apply step_names_distinct; [done|..].
      * intros c Hc Heq. apply NoDup_app in Hnd as (_ & Hdis & _).
        apply (Hdis (source_file c)); [by apply list_elem_of_fmap_2|].
        rewrite Heq. left.
      * intros c Hc. apply Hinj.
        -- apply elem_of_app. left. by apply list_elem_of_fmap_2.
        -- apply elem_of_app. right. left.
    + rewrite Ht, fmap_app, <- app_assoc. done.
    + rewrite Ht, fmap_app, <- app_assoc. done.
  - rewrite filter_cons_False in Hnd, Hinj by done. rewrite step_skip by done.
    by apply IH.
Qed.

End Unique.

(** X1: in a run over a well-formed tree in which no two converted paths
    have the same hash prefix, the final names are pairwise distinct. *)
Lemma names_unique_without_hash_clash h e source_dir t :
  wf_tree t = true →
  (∀ x y, x ∈ filter eligible (spec_files t) → y ∈ filter eligible (spec_files t) →
          path_hash (file_path source_dir x) = path_hash (file_path source_dir y) →
          file_path source_dir x = file_path source_dir y) →
  NoDup (new_filename <$>
           trace (foldl (step h source_dir) (start e) (walk_files source_dir t))).
Proof.
  intros Hwf Hinj.
  assert (Hpaths : (λ x : str * str * fileio, join x.1.1 x.1.2)
                     <$> filter matched (walk_files source_dir t)
                   = file_path source_dir <$> filter eligible (spec_files t)).
  { rewrite walk_files_spec by done.
    by rewrite filter_matched_visited, <- list_fmap_compose, list_filter_filter. }
  apply (loop_names_distinct h source_dir (walk_files source_dir t) (start e)).
  - split_and!; [constructor | by intros ? ?%elem_of_nil..].
  - cbn [start trace fmap list_fmap app]. rewrite Hpaths.
    by apply NoDup_fmap_filter, paths_NoDup.
  - cbn [start trace fmap list_fmap app]. rewrite Hpaths.
    intros p q (x & -> & Hx)%list_elem_of_fmap (y & -> & Hy)%list_elem_of_fmap.
    by apply Hinj.
Qed.

(** ** The text of the log *)

Lemma log_text_eq e st :
  log_text e st = concat (log_header e) ++ (log st ≫= render).
Proof.
  unfold log_text. rewrite concat_app. f_equal.
  induction (log st) as [|en l IH]; [done|]. by rewrite fmap_cons, bind_cons, <- IH.
Qed.

(** ** Scenarios of the specification *)

(** Two files of the same name in two directories: the second gets the
    hash of its own path. *)
Example scenario_same_name h :
  ∃ st, convert_elixir_to_txt h quiet (lit ".")
          (Dir [ (lit "a", Dir [] [ (lit "util.ex", readable foo_source) ]);
                 (lit "b", Dir [] [ (lit "util.ex", readable foo_source) ]) ] [])
        = Finished st
    ∧ log st = [ Success (lit "./a/util.ex") (lit "util.ex.txt");
                 Success (lit "./b/util.ex") (lit "util.ex_4800fb05.txt") ].
Proof. eexists. split; [reflexivity|]. vm_compute. reflexivity. Qed.

(** A file that cannot be read, then one of the same name that can: one
    error line, one success under the hashed name, and no file under the
    plain name. *)
Example scenario_unreadable h :
  ∃ st, convert_elixir_to_txt h quiet (lit ".")
          (Dir [ (lit "a", Dir [] [ (lit "util.ex",
                                      unreadable (lit "[Errno 13] Permission denied")) ]);
                 (lit "b", Dir [] [ (lit "util.ex", readable foo_source) ]) ] [])
        = Finished st
    ∧ log st = [ Error (lit "./a/util.ex") (lit "[Errno 13] Permission denied");
                 Success (lit "./b/util.ex") (lit "util.ex_4800fb05.txt") ]
    ∧ dom (out st) = {[ lit "util.ex_4800fb05.txt" ]}.
Proof. eexists. split; [reflexivity|]. split; vm_compute; reflexivity. Qed.

(** Only a file below [deps]: the log has its header and nothing else, the
    output directory stays as it was. *)
Example scenario_only_deps h :
  ∃ st, convert_elixir_to_txt h quiet (lit ".")
          (Dir [ (deps, Dir [ (lit "sub", Dir [] [ (lit "ignored.ex",
                                                     readable foo_source) ]) ] []) ] [])
        = Finished st
    ∧ log st = [] ∧ out st = ∅
    ∧ log_text quiet st = concat (log_header quiet).
Proof. eexists. split; [reflexivity|]. split_and!; vm_compute; reflexivity. Qed.

(** ** Claims *)

(** C1 (the code departs from it): in the run over [clash_tree] the second
    and the third file are assigned one and the same output name, and the
    output directory ends with two files for three sources. *)
Theorem C1_equal_hash_prefix_gives_equal_names h :
  wf_tree clash_tree = true
  ∧ ∃ st, convert_elixir_to_txt h quiet (lit ".") clash_tree = Finished st
      ∧ source_file <$> trace st
        = [ lit "./util.ex"; lit "./m1042/util.ex"; lit "./m7693/util.ex" ]
      ∧ new_filename <$> trace st
        = [ lit "util.ex.txt"; lit "util.ex_c77bb6c5.txt"; lit "util.ex_c77bb6c5.txt" ]
      ∧ log st = [ Success (lit "./util.ex") (lit "util.ex.txt");
                   Success (lit "./m1042/util.ex") (lit "util.ex_c77bb6c5.txt");
                   Success (lit "./m7693/util.ex") (lit "util.ex_c77bb6c5.txt") ]
      ∧ dom (out st) = {[ lit "util.ex.txt"; lit "util.ex_c77bb6c5.txt" ]}
      ∧ out st !! lit "util.ex_c77bb6c5.txt"
        = Some (concat (dst_writes (lit "util.ex")
                          (relpath h (lit "./m7693/util.ex") (lit "."))
                          (lit ".ex") (f_now (readable (lit "second")))
                          (lit "second"))).
Proof.
  split; [vm_compute; reflexivity|]. eexists. split; [reflexivity|].
  split_and!; vm_compute; reflexivity.
Qed.



(** C3: in a run that gets past its start-up, a file lying under a
    directory named [deps], at whatever depth below it, has no record in the
    log and no name assigned, and every file of the output directory the run
    created or changed was written for a file outside every [deps]. *)
Theorem C3_nothing_under_deps_is_converted h e source_dir t :
  wf_tree t = true →
  makedirs_error e = None → open_log_error e = None →
  ∃ st, convert_elixir_to_txt h e source_dir t = Finished st
    ∧ (∀ x, x ∈ spec_files t → under_deps x.1.1 = true →
         lines_about (file_path source_dir x) (log st) = 0%nat
         ∧ file_path source_dir x ∉ source_file <$> trace st)
    ∧ (∀ n, out st !! n ≠ existing e !! n →
         ∃ x c, x ∈ spec_files t ∧ under_deps x.1.1 = false ∧ matches x.1.2 = true
                ∧ c ∈ trace st ∧ source_file c = file_path source_dir x
                ∧ new_filename c = n).
Proof.
  intros Hwf Hm Ho. eexists. split; [by apply convert_finished|].
  destruct (run_paths h source_dir e t Hwf) as [Hlog Htrace]. split.
  - intros x Hx Hdeps.
    assert (Hnot : ¬ eligible x).
    { intros [_ Hout]. unfold outside_deps in Hout. congruence. }
    split.
    + rewrite (run_lines_about h source_dir e t x Hwf Hx). by rewrite decide_False.
    + rewrite Htrace.
      intros (y & Heq & [Hy Hin]%list_elem_of_filter)%list_elem_of_fmap.
      apply Hnot. pose proof (file_path_inj _ t x y Hwf Hx Hin Heq) as Hp.
      destruct x as [k ?], y as [k' ?]. cbn in Hp. subst k'. exact Hy.
  - intros n Hn. destruct (loop_out_changed h source_dir e _ n Hn) as (c & Hc & Hname).
    assert (Hsrc : source_file c ∈ source_file <$> trace
              (foldl (step h source_dir) (start e) (walk_files source_dir t))).
    { by apply list_elem_of_fmap_2. }
    rewrite Htrace in Hsrc.
    apply list_elem_of_fmap in Hsrc as (x & Heq & [[Hmx Hox] Hin]%list_elem_of_filter).
    by exists x, c.
Qed.

Lemma C3_witness :
  ∃ st, convert_elixir_to_txt ascii_host quiet (lit ".") project = Finished st
    ∧ (∀ x, x ∈ spec_files project → under_deps x.1.1 = true →
         lines_about (file_path (lit ".") x) (log st) = 0%nat
         ∧ file_path (lit ".") x ∉ source_file <$> trace st)
    ∧ (∀ n, out st !! n ≠ existing quiet !! n →
         ∃ x c, x ∈ spec_files project ∧ under_deps x.1.1 = false
                ∧ matches x.1.2 = true
                ∧ c ∈ trace st ∧ source_file c = file_path (lit ".") x
                ∧ new_filename c = n).
Proof.
  apply C3_nothing_under_deps_is_converted; [vm_compute; reflexivity | reflexivity..].
Defined.

(** C4: a matched file whose candidate name (safe name plus [.txt]) is in
    the set already is named safe name, [_], the first eight hex digits of
    the MD5 of its own source path, [.txt]; otherwise it keeps the candidate
    name.  The name is a function of the set, the root and the file name
    alone, whatever the file holds, and it is what goes into the set. *)
Theorem C4_hash_suffix_when_name_taken h source_dir st root file io :
  matches file = true →
  let c := name_file h (processed_files st) root file in
  let st' := process_file h source_dir st root file io in
  let hash8 := take 8 (Md5.hexdigest (encode (join root file))) in
  trace st' = trace st ++ [c]
  ∧ source_file c = join root file
  ∧ length hash8 = 8%nat ∧ Forall (λ ch, hex_char ch = true) hash8
  ∧ new_filename c =
      (if decide (safe_name c ++ lit ".txt" ∈ processed_files st)
       then safe_name c ++ lit "_" ++ hash8 ++ lit ".txt"
       else safe_name c ++ lit ".txt")
  ∧ processed_files st' = {[new_filename c]} ∪ processed_files st.
Proof.
  intros Hm. cbn zeta.
  destruct (step_matched h source_dir st (root, file, io) Hm) as (Hset & _ & Htr).
  destruct (path_hash_chars (join root file)) as [Hlen Hhex].
  split_and!; done.
Qed.

Lemma C4_witness :
  let c := name_file ascii_host (processed_files after_two_utils) (lit "./c") (lit "util.ex") in
  let st' := process_file ascii_host (lit ".") after_two_utils (lit "./c") (lit "util.ex")
               (readable foo_source) in
  let hash8 := take 8 (Md5.hexdigest (encode (lit "./c/util.ex"))) in
  trace st' = trace after_two_utils ++ [c]
  ∧ source_file c = lit "./c/util.ex"
  ∧ length hash8 = 8%nat ∧ Forall (λ ch, hex_char ch = true) hash8
  ∧ new_filename c = lit "util.ex_99036a4d.txt"
  ∧ processed_files st' = {[new_filename c]} ∪ processed_files after_two_utils.
Proof.
  apply (C4_hash_suffix_when_name_taken ascii_host (lit ".") after_two_utils (lit "./c")
           (lit "util.ex") (readable foo_source)).
  reflexivity.
Defined.

(** C5: when a matched file is read and written without failure, the
    output file holds the nine header lines, the last one blank, followed by
    exactly the text read; when no newline occurs inside the name, the
    relative path and the date, the text after the ninth line is the text
    read.  The text read is the total decoding of the bytes: it holds scalar
    values only, and encoding it and reading it back gives it again. *)
Theorem C5_body_is_the_decoded_content h source_dir st root file io bytes :
  matches file = true →
  f_read io = ReadOk bytes → f_write io = WriteOk →
  let c := name_file h (processed_files st) root file in
  let st' := process_file h source_dir st root file io in
  let rel := relpath h (join root file) source_dir in
  let lines := header_lines file rel (original_ext c) (f_now io) in
  log st' = log st ++ [Success (join root file) (new_filename c)]
  ∧ out st' !! new_filename c = Some ((lines ≫= λ l, l ++ nl) ++ read_text bytes)
  ∧ length lines = 9%nat ∧ last lines = Some []
  ∧ ((newline ∉ file) ∧ (newline ∉ rel) ∧ (newline ∉ f_now io) →
     skip_lines 9 ((lines ≫= λ l, l ++ nl) ++ read_text bytes) = read_text bytes)
  ∧ Forall (λ ch, scalar ch = true) (read_text bytes)
  ∧ read_text (encode (read_text bytes)) = read_text bytes.
Proof.
  intros Hm Hr Hw. cbn zeta.
  unfold process_file. rewrite Hm, Hr, Hw. cbn [negb log out].
  split_and!; [done | | done | done | | apply read_text_scalar | apply read_text_round_trip].
  - rewrite lookup_insert_eq, dst_writes_header. done.
  - intros (Hfile & Hrel & Hnow).
    apply (skip_lines_lines (header_lines _ _ _ _)), header_lines_no_newline; try done.
    cbn [name_file original_ext].
    assert (Hs : Forall (λ ch, ch ≠ 10) (suffix file)).
    { apply suffix_keeps, Forall_forall. intros ch Hch ->. done. }
    rewrite Forall_forall in Hs. intros Hin. by apply (Hs _ Hin).
Qed.

Lemma C5_witness :
  let c := name_file ascii_host ∅ (lit "./lib") (lit "cafe.ex") in
  let st' := process_file ascii_host (lit ".") (start quiet) (lit "./lib") (lit "cafe.ex")
               (readable latin1_source) in
  let lines := header_lines (lit "cafe.ex") (lit "lib/cafe.ex") (lit ".ex")
                 (f_now (readable latin1_source)) in
  let content := lit "# caf" ++ [replacement; newline] in
  log st' = [Success (lit "./lib/cafe.ex") (lit "cafe.ex.txt")]
  ∧ out st' !! lit "cafe.ex.txt" = Some ((lines ≫= λ l, l ++ nl) ++ content)
  ∧ length lines = 9%nat ∧ last lines = Some []
  ∧ skip_lines 9 ((lines ≫= λ l, l ++ nl) ++ content) = content
  ∧ Forall (λ ch, scalar ch = true) content
  ∧ read_text (encode content) = content.
Proof.
  destruct (C5_body_is_the_decoded_content ascii_host (lit ".") (start quiet) (lit "./lib")
              (lit "cafe.ex") (readable latin1_source) latin1_source
              eq_refl eq_refl eq_refl) as (H1 & H2 & H3 & H4 & H5 & H6 & H7).
  split_and!; [exact H1 | exact H2 | exact H3 | exact H4 | | exact H6 | exact H7].
  apply H5. split_and!; refute.
Defined.

(** C6: the safe base name has the length of the base name (the file name
    without its final extension) and at every index the character of the
    base name if that is alphanumeric, [-] or [_], and [_] otherwise; the
    safe name is it followed by the extension.  A lone file named
    [weird name!@#.exs] is written to [weird_name___.exs.txt]. *)
Theorem C6_safe_base_name h seen root file :
  let c := name_file h seen root file in
  base_name c = stem file ∧ original_ext c = suffix file
  ∧ base_name c ++ original_ext c = file
  ∧ (∃ safe_base, safe_name c = safe_base ++ original_ext c
       ∧ length safe_base = length (base_name c)
       ∧ ∀ i ch, base_name c !! i = Some ch →
           safe_base !! i =
           Some (if isalnum h ch || bool_decide (ch = dash)
                    || bool_decide (ch = underscore)
                 then ch else underscore))
  ∧ new_filename (name_file h ∅ root (lit "weird name!@#.exs"))
    = lit "weird_name___.exs.txt"
  ∧ ∃ st, convert_elixir_to_txt h quiet (lit ".")
            (Dir [] [ (lit "weird name!@#.exs", readable foo_source) ]) = Finished st
          ∧ log st = [ Success (lit "./weird name!@#.exs") (lit "weird_name___.exs.txt") ].
Proof.
  cbn zeta. split_and!; try done.
  - apply stem_suffix.
  - exists (safe_char h <$> stem file). cbn. split_and!; [done | by rewrite length_fmap |].
    intros i ch Hi. by rewrite list_lookup_fmap, Hi.
  - eexists. split; [reflexivity|]. vm_compute. reflexivity.
Qed.


(** C8: two runs of the same interpreter that meet the same roots and file
    names in the same order compute the same per-file values (source path,
    base name, extension, safe name, final name) and end with the same set of
    names, whatever the files hold, whatever their reads and writes do,
    whatever the clock and whatever the output directory held before. *)
Theorem C8_naming_depends_on_paths_only h e1 e2 source_dir t1 t2 :
  walk_names source_dir t1 = walk_names source_dir t2 →
  makedirs_error e1 = None → open_log_error e1 = None →
  makedirs_error e2 = None → open_log_error e2 = None →
  ∃ st1 st2,
    convert_elixir_to_txt h e1 source_dir t1 = Finished st1
    ∧ convert_elixir_to_txt h e2 source_dir t2 = Finished st2
    ∧ trace st1 = trace st2
    ∧ processed_files st1 = processed_files st2.
Proof.
  intros Hnames Hm1 Ho1 Hm2 Ho2. eexists _, _.
  split; [by apply convert_finished|]. split; [by apply convert_finished|].
  destruct (loop_names_only h source_dir (walk_files source_dir t1)
              (walk_files source_dir t2) (start e1) (start e2) Hnames) as [Hs Ht];
    done.
Qed.

Lemma C8_witness :
  ∃ st1 st2,
    convert_elixir_to_txt ascii_host quiet (lit ".") project = Finished st1
    ∧ convert_elixir_to_txt ascii_host busy (lit ".") project_later = Finished st2
    ∧ trace st1 = trace st2
    ∧ processed_files st1 = processed_files st2.
Proof.
  apply C8_naming_depends_on_paths_only; reflexivity.
Defined.

(** C9: for a matched file name whose only dot is its first character, the
    extension is empty and the base name is the whole name; the file is
    written under the safe-mapped whole name plus [.txt], which starts with
    [_], and the sixth line of its header is [Original extension: ] with
    nothing after it. *)
Theorem C9_only_dot_is_leading h source_dir st root rest io bytes :
  dot ∉ rest →
  matches (dot :: rest) = true →
  (underscore :: (safe_char h <$> rest)) ++ lit ".txt" ∉ processed_files st →
  f_read io = ReadOk bytes → f_write io = WriteOk →
  let file := dot :: rest in
  let c := name_file h (processed_files st) root file in
  let st' := process_file h source_dir st root file io in
  let lines := header_lines file (relpath h (join root file) source_dir) []
                 (f_now io) in
  original_ext c = [] ∧ base_name c = file
  ∧ new_filename c = (underscore :: (safe_char h <$> rest)) ++ lit ".txt"
  ∧ log st' = log st ++ [Success (join root file) (new_filename c)]
  ∧ out st' !! new_filename c = Some ((lines ≫= λ l, l ++ nl) ++ read_text bytes)
  ∧ lines !! 5%nat = Some (lit "Original extension: ").
Proof.
  intros Hdot Hm Hseen Hr Hw. cbn zeta.
  assert (Hrf : rfind dot (dot :: rest) = Some 0%nat) by (by apply (rfind_last dot [])).
  assert (Hext : suffix (dot :: rest) = []) by (unfold suffix; by rewrite Hrf).
  assert (Hstem : stem (dot :: rest) = dot :: rest) by (unfold stem; by rewrite Hrf).
  assert (Hname : new_filename (name_file h (processed_files st) root (dot :: rest))
                  = (underscore :: (safe_char h <$> rest)) ++ lit ".txt").
  { unfold name_file. cbn [new_filename].
    rewrite Hext, Hstem, app_nil_r. by rewrite decide_False. }
  unfold process_file. rewrite Hm, Hr, Hw. cbn [negb out log].
  split_and!; [done..| |reflexivity].
  rewrite lookup_insert_eq, dst_writes_header.
  cbn [original_ext name_file source_file]. by rewrite Hext.
Qed.

Lemma C9_witness :
  let file := lit ".exs" in
  let c := name_file ascii_host ∅ (lit ".") file in
  let st' := process_file ascii_host (lit ".") (start quiet) (lit ".") file
               (readable foo_source) in
  let lines := header_lines file (lit ".exs") [] (f_now (readable foo_source)) in
  original_ext c = [] ∧ base_name c = lit ".exs"
  ∧ new_filename c = lit "_exs.txt"
  ∧ log st' = [Success (lit "./.exs") (lit "_exs.txt")]
  ∧ out st' !! lit "_exs.txt" = Some ((lines ≫= λ l, l ++ nl) ++ foo_source)
  ∧ lines !! 5%nat = Some (lit "Original extension: ").
Proof.
  apply (C9_only_dot_is_leading ascii_host (lit ".") (start quiet) (lit ".") (lit "exs")
           (readable foo_source) foo_source);
    [refute | reflexivity | apply not_elem_of_empty | reflexivity | reflexivity].
Defined.

(** C10: the final name of a matched file is in the set after its turn
    even when its copy fails; the failure leaves the output directory as it
    was, or with a truncated file if the write broke off; and after any
    further entries, a matched file whose candidate name is that name gets
    the hash-suffixed name. *)
Theorem C10_failed_file_still_claims_its_name
    h source_dir st root file io msg later root' file' :
  matches file = true →
  failure io = Some msg →
  let c := name_file h (processed_files st) root file in
  let st1 := process_file h source_dir st root file io in
  let st2 := foldl (step h source_dir) st1 later in
  let c' := name_file h (processed_files st2) root' file' in
  safe_name c' ++ lit ".txt" = new_filename c →
  new_filename c ∈ processed_files st1
  ∧ log st1 = log st ++ [Error (join root file) msg]
  ∧ out st1 =
      match f_read io, f_write io with
      | ReadOk bytes, WriteErr n _ =>
          <[new_filename c :=
              take n (concat (dst_writes file (relpath h (join root file) source_dir)
                                (original_ext c) (f_now io) (read_text bytes)))]> (out st)
      | _, _ => out st
      end
  ∧ new_filename c' = safe_name c' ++ lit "_" ++ path_hash (join root' file') ++ lit ".txt".
Proof.
  intros Hm Hfail c st1 st2 c' Hcand.
  assert (Hin : new_filename c ∈ processed_files st1).
  { subst st1 c. destruct (step_matched h source_dir st (root, file, io) Hm) as (Hs & _).
    unfold step in Hs. cbn [fst snd] in Hs. rewrite Hs.
    apply elem_of_union. left. by apply elem_of_singleton. }
  split; [done|]. split_and!.
  - subst st1. unfold process_file, failure in *. rewrite Hm. cbn [negb].
    destruct (f_read io); [destruct (f_write io)|];
      try discriminate Hfail; injection Hfail as ->; reflexivity.
  - subst st1. unfold process_file, failure in *. rewrite Hm. cbn [negb].
    destruct (f_read io); [destruct (f_write io)|];
      try discriminate Hfail; reflexivity.
  - subst c'. unfold name_file in *. cbn [new_filename safe_name] in *.
    rewrite decide_True; [done|]. rewrite Hcand.
    by apply (processed_mono h source_dir later st1).
Qed.

Lemma C10_witness :
  let c := name_file ascii_host ∅ (lit "./a") (lit "util.ex") in
  let st1 := process_file ascii_host (lit ".") (start quiet) (lit "./a") (lit "util.ex")
               (unreadable (lit "[Errno 13] Permission denied")) in
  let c' := name_file ascii_host (processed_files st1) (lit "./b") (lit "util.ex") in
  lit "util.ex.txt" ∈ processed_files st1
  ∧ log st1 = [Error (lit "./a/util.ex") (lit "[Errno 13] Permission denied")]
  ∧ out st1 = ∅
  ∧ new_filename c' = lit "util.ex_4800fb05.txt".
Proof.
  apply (C10_failed_file_still_claims_its_name ascii_host (lit ".") (start quiet)
           (lit "./a") (lit "util.ex") (unreadable (lit "[Errno 13] Permission denied"))
           (lit "[Errno 13] Permission denied") [] (lit "./b") (lit "util.ex"));
    reflexivity.
Defined.

(** * Further properties of the script *)

(** ** Further properties: the shape of the output names *)

Section OutputNames.

Context (h : host).

Lemma kept_allowed c : kept h c = true → allowed h c = true.
Proof. unfold kept, allowed. intros ->. done. Qed.

Lemma safe_char_kept c : kept h (safe_char h c) = true.
Proof.
  unfold safe_char. destruct (_ || _ || _) eqn:Hk; [exact Hk|].
  unfold kept. by rewrite (bool_decide_eq_true_2 (underscore = underscore)), orb_true_r.
Qed.

Lemma safe_char_fixed c : safe_char h c = c ↔ kept h c = true.
Proof.
  split.
  - intros Heq. rewrite <- Heq. apply safe_char_kept.
  - unfold kept, safe_char. by intros ->.
Qed.

Lemma hex_char_allowed c : hex_char c = true → allowed h c = true.
Proof.
  intros Hc. unfold allowed, isalnum.
  assert (Hlt : c < 128 ∧ ascii_alnum c = true).
  { unfold hex_char, ascii_alnum, in_range in *.
    rewrite !orb_true_iff, !andb_true_iff, !N.leb_le in *. lia. }
  destruct Hlt as [Hlt ->]. apply N.ltb_lt in Hlt. by rewrite Hlt.
Qed.

(** The safe name of a matched file: safe characters, then [.ex] or [.exs],
    or the safe image of one of these two names. *)
Lemma safe_name_allowed seen root file :
  matches file = true →
  Forall (λ ch, allowed h ch = true) (safe_name (name_file h seen root file)).
Proof.
  intros Hm. cbn [name_file safe_name]. apply Forall_app. split.
  - apply Forall_fmap, Forall_forall. intros ch _. apply kept_allowed, safe_char_kept.
  - destruct (matched_suffix file Hm)
      as [(pre & _ & _ & [[_ ->]|[_ ->]])|(_ & _ & ->)];
      repeat constructor.
Qed.

(** The last character of the safe name of a matched file is [x] or [s]. *)
Lemma safe_name_ends seen root file :
  matches file = true →
  ∃ pre ch, safe_name (name_file h seen root file) = pre ++ [ch]
            ∧ (ch = 120 ∨ ch = 115).
Proof.
  intros Hm. cbn [name_file safe_name].
  destruct (matched_suffix file Hm)
    as [(pre & _ & -> & [[_ ->]|[_ ->]])|([->| ->] & -> & ->)].
  - exists ((safe_char h <$> pre) ++ lit ".e"), 120.
    rewrite <- app_assoc. split; [reflexivity | by left].
  - exists ((safe_char h <$> pre) ++ lit ".ex"), 115.
    rewrite <- app_assoc. split; [reflexivity | by right].
  - exists [safe_char h dot; safe_char h 101], 120. split; [reflexivity | by left].
  - exists [safe_char h dot; safe_char h 101; safe_char h 120], 115.
    split; [reflexivity | by right].
Qed.

Lemma matched_ends file :
  matches file = true → ∃ pre ch, file = pre ++ [ch] ∧ (ch = 120 ∨ ch = 115).
Proof.
  unfold matches. rewrite orb_true_iff, !endswith_spec. intros [[pre ->]|[pre ->]].
  - exists (pre ++ lit ".e"), 120. rewrite <- app_assoc. split; [reflexivity | by left].
  - exists (pre ++ lit ".ex"), 115. rewrite <- app_assoc. split; [reflexivity | by right].
Qed.

Lemma new_filename_cases seen root file :
  let c := name_file h seen root file in
  ((safe_name c ++ lit ".txt" ∉ seen) ∧ new_filename c = safe_name c ++ lit ".txt")
  ∨ (safe_name c ++ lit ".txt" ∈ seen
     ∧ new_filename c = safe_name c ++ lit "_" ++ path_hash (join root file) ++ lit ".txt").
Proof. cbn [name_file safe_name new_filename]. case_decide; auto. Qed.

Lemma new_filename_allowed seen root file :
  matches file = true →
  Forall (λ ch, allowed h ch = true) (new_filename (name_file h seen root file)).
Proof.
  intros Hm. pose proof (safe_name_allowed seen root file Hm) as Hsafe.
  destruct (new_filename_cases seen root file) as [[_ ->]|[_ ->]].
  - apply Forall_app. split; [done | repeat constructor].
  - rewrite !Forall_app. split_and!; [done | repeat constructor | | repeat constructor].
    destruct (path_hash_chars (join root file)) as [_ Hhex].
    eapply Forall_impl; [exact Hhex|]. intros ch. apply hex_char_allowed.
Qed.

(** Whatever the name ends in, it is not what a matched name ends in. *)
Lemma ends_in_txt_unmatched (s : str) : matches (s ++ lit ".txt") = false.
Proof.
  destruct (matches (s ++ lit ".txt")) eqn:Hm; [|done].
  apply matched_ends in Hm as (pre & ch & Heq & Hch).
  change (lit ".txt") with (lit ".tx" ++ [116]) in Heq. rewrite app_assoc in Heq.
  apply app_inj_2 in Heq as [_ [= <-]]; [|done]. by destruct Hch.
Qed.

Lemma new_filename_txt seen root file :
  ∃ s, new_filename (name_file h seen root file) = s ++ lit ".txt".
Proof.
  destruct (new_filename_cases seen root file) as [[_ ->]|[_ ->]]; [by eexists|].
  eexists. by rewrite !app_assoc.
Qed.

Lemma new_filename_unmatched seen root file :
  matches (new_filename (name_file h seen root file)) = false.
Proof.
  destruct (new_filename_txt seen root file) as [s ->]. apply ends_in_txt_unmatched.
Qed.

Lemma new_filename_not_log seen root file :
  matches file = true → new_filename (name_file h seen root file) ≠ log_name.
Proof.
  intros Hm Heq. change log_name with (lit "_conversion_lo" ++ [103] ++ lit ".txt") in Heq.
  destruct (new_filename_cases seen root file) as [[_ Hn]|[_ Hn]]; rewrite Hn in Heq.
  - destruct (safe_name_ends seen root file Hm) as (pre & ch & Hs & Hch).
    rewrite Hs, !app_assoc in Heq. apply app_inv_tail in Heq.
    apply app_inj_2 in Heq as [_ [= ->]]; [|done]. by destruct Hch.
  - destruct (path_hash_chars (join root file)) as [Hlen Hhex].
    destruct (last (path_hash (join root file))) as [d|] eqn:Hlast.
    + apply last_Some in Hlast as [hash' Hh]. rewrite Hh in Heq, Hhex.
      rewrite !app_assoc in Heq. apply app_inv_tail in Heq.
      apply app_inj_2 in Heq as [_ [= ->]]; [|done].
      apply Forall_app in Hhex as [_ Hd]. apply Forall_inv in Hd. done.
    + apply last_None in Hlast. by rewrite Hlast in Hlen.
Qed.

End OutputNames.

Lemma new_filename_flat h seen root file :
  matches file = true →
  let c := name_file h seen root file in
  new_filename c ≠ [] ∧ (slash ∉ new_filename c)
  ∧ ∀ output_dir, output_file output_dir c = dir_prefix output_dir ++ new_filename c.
Proof.
  intros Hm c. pose proof (new_filename_allowed h seen root file Hm) as Hall.
  fold c in Hall.
  assert (Hne : new_filename c ≠ []).
  { destruct (new_filename_txt h seen root file) as [s Hs]. fold c in Hs.
    rewrite Hs. by destruct s. }
  assert (Hsl : slash ∉ new_filename c).
  { intros Hin. rewrite Forall_forall in Hall. by specialize (Hall _ Hin). }
  split_and!; [done..|]. intros output_dir. apply join_good.
  apply good_name_spec. done.
Qed.

(** X3: the output name of a matched file holds alphanumeric characters,
    [-], [_] and [.] only; so it is not empty, holds no separator, and the
    output file lies directly in the output directory. *)
Theorem X3_output_names_are_flat_and_safe h seen root file :
  matches file = true →
  let c := name_file h seen root file in
  Forall (λ ch, allowed h ch = true) (new_filename c)
  ∧ new_filename c ≠ [] ∧ (slash ∉ new_filename c)
  ∧ ∀ output_dir, output_file output_dir c = dir_prefix output_dir ++ new_filename c.
Proof.
  intros Hm c. split.
  - by apply new_filename_allowed.
  - by apply new_filename_flat.
Qed.

Lemma X3_witness :
  let c := name_file ascii_host ∅ (lit "./lib") (lit "my file (v2).exs") in
  Forall (λ ch, allowed ascii_host ch = true) (new_filename c)
  ∧ new_filename c ≠ [] ∧ (slash ∉ new_filename c)
  ∧ ∀ output_dir,
      output_file output_dir c = dir_prefix output_dir ++ lit "my_file__v2_.exs.txt".
Proof.
  exact (X3_output_names_are_flat_and_safe ascii_host ∅ (lit "./lib")
           (lit "my file (v2).exs") eq_refl).
Defined.

(** X4: a matched file is written under its own name followed by [.txt]
    exactly when every character of its base name is alphanumeric, [-] or
    [_] and no earlier file of the run was given that name. *)
Theorem X4_own_name_kept_exactly_when_safe_and_free h seen root file :
  matches file = true →
  new_filename (name_file h seen root file) = file ++ lit ".txt"
  ↔ Forall (λ ch, kept h ch = true) (stem file) ∧ file ++ lit ".txt" ∉ seen.
Proof.
  intros Hm. split.
  - intros Heq.
    destruct (new_filename_cases h seen root file) as [[Hfree Hn]|[_ Hn]];
      rewrite Hn in Heq.
    + apply app_inv_tail in Heq. rewrite Heq in Hfree. split; [|done].
      cbn [name_file safe_name] in Heq. rewrite <- (stem_suffix file) in Heq at 3.
      apply app_inv_tail in Heq. apply Forall_forall. intros ch Hch.
      apply safe_char_fixed.
      apply list_elem_of_lookup in Hch as [i Hi].
      apply (f_equal (λ l, l !! i)) in Heq. rewrite list_lookup_fmap, Hi in Heq.
      by injection Heq.
    + exfalso. rewrite !app_assoc in Heq. apply app_inv_tail in Heq.
      destruct (matched_ends file Hm) as (pre & ch & Hf & Hch).
      destruct (path_hash_chars (join root file)) as [Hlen Hhex].
      destruct (last (path_hash (join root file))) as [d|] eqn:Hlast.
      * apply last_Some in Hlast as [hash' Hh]. rewrite Hh, Hf in Heq. rewrite Hh in Hhex.
        rewrite !app_assoc in Heq. apply app_inj_2 in Heq as [_ [= ->]]; [|done].
        apply Forall_app in Hhex as [_ Hd]. apply Forall_inv in Hd.
        by destruct Hch as [-> | ->].
      * apply last_None in Hlast. by rewrite Hlast in Hlen.
  - intros [Hkept Hfree].
    assert (Hsafe : safe_name (name_file h seen root file) = file).
    { cbn [name_file safe_name]. rewrite <- (stem_suffix file) at 3. f_equal.
      induction Hkept as [|ch l Hch Hl IH]; [done|].
      rewrite fmap_cons, IH. f_equal. by apply safe_char_fixed. }
    destruct (new_filename_cases h seen root file) as [[_ Hn]|[Hin _]].
    + by rewrite Hn, Hsafe.
    + by rewrite Hsafe in Hin.
Qed.

Lemma X4_witness :
  new_filename (name_file ascii_host ∅ (lit "./lib") (lit "foo-bar_2.ex"))
  = lit "foo-bar_2.ex.txt".
Proof.
  apply (X4_own_name_kept_exactly_when_safe_and_free ascii_host ∅ (lit "./lib")
           (lit "foo-bar_2.ex") eq_refl).
  split; [repeat constructor | apply not_elem_of_empty].
Defined.

(** ** Further properties: what a run does to the output directory *)

Section OutputDirectory.

Context (h : host) (source_dir : str).

Lemma trace_named e l :
  ∀ c, c ∈ trace (foldl (step h source_dir) (start e) l) → named_by h c.
Proof.
  apply (loop_ind h source_dir (λ st, ∀ c, c ∈ trace st → named_by h c)).
  - by intros c ?%elem_of_nil.
  - intros st x IH c Hc.
    destruct (step_cases h source_dir st x) as [[_ Heq]|(Hm & _ & _ & Heq)];
      rewrite Heq in Hc; [by apply IH|].
    apply elem_of_app in Hc as [Hc| ->%list_elem_of_singleton]; [by apply IH|].
    by eexists _, _, _.
Qed.

(** A turn removes no file. *)
Lemma step_out_keeps st x n :
  is_Some (out st !! n) → is_Some (out (step h source_dir st x) !! n).
Proof.
  intros Hn. unfold step, process_file. destruct (matches x.1.2); cbn [negb]; [|done].
  destruct (f_read x.2); [destruct (f_write x.2)|]; cbn [out]; try done;
    rewrite lookup_insert; case_decide; done.
Qed.

Lemma loop_bookkeeping e l :
  let st := foldl (step h source_dir) (start e) l in
  (∀ n, is_Some (existing e !! n) → is_Some (out st !! n))
  ∧ (∀ n, out st !! n ≠ existing e !! n → n ∈ processed_files st)
  ∧ processed_files st = list_to_set (new_filename <$> trace st).
Proof.
  apply (loop_ind h source_dir (λ st,
    (∀ n, is_Some (existing e !! n) → is_Some (out st !! n))
    ∧ (∀ n, out st !! n ≠ existing e !! n → n ∈ processed_files st)
    ∧ processed_files st = list_to_set (new_filename <$> trace st))).
  - split_and!; [done | done | by cbn].
  - intros st x (Hkeep & Hnew & Hset). split_and!.
    + intros n Hn. by apply step_out_keeps, Hkeep.
    + intros n Hn.
      destruct (decide (out (step h source_dir st x) !! n = out st !! n)) as [Heq|Hne].
      * rewrite Heq in Hn. apply Hnew in Hn.
        destruct (step_cases h source_dir st x) as [[_ ->]|(_ & -> & _)]; [done|].
        apply elem_of_union. by right.
      * apply step_out in Hne as [Hm ->].
        destruct (step_matched h source_dir st x Hm) as (-> & _).
        apply elem_of_union. left. by apply elem_of_singleton.
    + destruct (step_cases h source_dir st x) as [[_ ->]|(_ & -> & _ & ->)]; [done|].
      rewrite fmap_app, list_to_set_app_L, Hset. cbn.
      rewrite union_empty_r_L. apply (comm_L (∪)).
Qed.

End OutputDirectory.

(** X6: a finished run has removed no file of the output directory; it has
    created or replaced files only under names that are in its set; and the
    set is exactly the set of the final names it assigned. *)
Theorem X6_files_are_never_removed_and_the_set_records_every_name
    h e source_dir t st :
  convert_elixir_to_txt h e source_dir t = Finished st →
  (∀ n, is_Some (existing e !! n) → is_Some (out st !! n))
  ∧ (∀ n, out st !! n ≠ existing e !! n → n ∈ processed_files st)
  ∧ processed_files st = list_to_set (new_filename <$> trace st).
Proof.
  unfold convert_elixir_to_txt.
  destruct (makedirs_error e); [done|]. destruct (open_log_error e); [done|].
  intros [= <-]. rewrite loop_flat. apply loop_bookkeeping.
Qed.

Lemma X6_witness :
  (∀ n, is_Some (existing busy !! n) → is_Some (out later_run !! n))
  ∧ (∀ n, out later_run !! n ≠ existing busy !! n → n ∈ processed_files later_run)
  ∧ processed_files later_run = list_to_set (new_filename <$> trace later_run).
Proof.
  apply (X6_files_are_never_removed_and_the_set_records_every_name
           ascii_host busy (lit ".") project_later later_run).
  reflexivity.
Defined.

(** X2: no output file is ever written under the name of the log: a
    finished run leaves the entry [_conversion_log.txt] of the output
    directory to the log, and the path of every output file differs from the
    path of the log. *)
Theorem X2_the_log_is_never_overwritten h e source_dir t st :
  convert_elixir_to_txt h e source_dir t = Finished st →
  out st !! log_name = existing e !! log_name
  ∧ ∀ c output_dir, c ∈ trace st → output_file output_dir c ≠ join output_dir log_name.
Proof.
  unfold convert_elixir_to_txt.
  destruct (makedirs_error e); [done|]. destruct (open_log_error e); [done|].
  intros [= <-]. rewrite loop_flat. fold (walk_files source_dir t).
  assert (Hno : ∀ c, c ∈ trace (foldl (step h source_dir) (start e)
                                    (walk_files source_dir t)) →
                     new_filename c ≠ log_name).
  { intros c (seen & root & file & Hm & ->)%trace_named.
    by apply new_filename_not_log. }
  split.
  - destruct (decide (out (foldl (step h source_dir) (start e)
                             (walk_files source_dir t)) !! log_name
                      = existing e !! log_name)) as [|Hne]; [done|].
    apply (loop_out_changed h source_dir e) in Hne as (c & Hc & Hname).
    by apply Hno in Hc.
  - intros c output_dir Hc Heq. apply (Hno c Hc).
    apply trace_named in Hc as (seen & root & file & Hm & ->).
    destruct (new_filename_flat h seen root file Hm) as (_ & _ & Hflat).
    rewrite Hflat, (join_good output_dir log_name) in Heq by done.
    by apply app_inv_head in Heq.
Qed.

Lemma X2_witness :
  out project_run !! log_name = existing quiet !! log_name
  ∧ ∀ c output_dir, c ∈ trace project_run →
      output_file output_dir c ≠ join output_dir log_name.
Proof.
  apply (X2_the_log_is_never_overwritten ascii_host quiet (lit ".") project project_run).
  reflexivity.
Defined.

(** ** Further properties: what the output files hold at the end *)

Section Contents.

Context (h : host) (source_dir : str).

Lemma step_copied st x :
  matched x →
  copied h source_dir (out (step h source_dir st x)) x
    (name_file h (processed_files st) x.1.1 x.1.2).
Proof.
  unfold matched, step, process_file, copied, output_text. intros ->. cbn [negb].
  split; [done|].
  destruct (f_read x.2); [destruct (f_write x.2)|]; cbn [out]; try done;
    apply lookup_insert_eq.
Qed.

Lemma copied_same (o1 o2 : gmap str str) x c :
  o2 !! new_filename c = o1 !! new_filename c →
  copied h source_dir o1 x c → copied h source_dir o2 x c.
Proof.
  unfold copied. intros Heq [Hp Hc]. split; [done|].
  destruct (f_read x.2); [destruct (f_write x.2)|]; by rewrite ?Heq.
Qed.

(** The records a loop adds to the history, the files it leaves alone, and
    what the files of its records hold when the names are distinct. *)
Lemma loop_copied l : ∀ st,
  ∃ added, trace (foldl (step h source_dir) st l) = trace st ++ added
    ∧ (∀ n, n ∉ new_filename <$> added →
            out (foldl (step h source_dir) st l) !! n = out st !! n)
    ∧ (NoDup (new_filename <$> added) →
       Forall2 (copied h source_dir (out (foldl (step h source_dir) st l)))
         (filter matched l) added).
Proof.
  induction l as [|x l IH]; intros st; cbn [foldl].
  - exists []. rewrite app_nil_r. split_and!; [done | done | constructor].
  - destruct (IH (step h source_dir st x)) as (added & Htr & Hout & Hall).
    destruct (decide (matched x)) as [Hm|Hm].
    + destruct (step_matched h source_dir st x Hm) as (_ & _ & Hc). cbn zeta in Hc.
      exists (name_file h (processed_files st) x.1.1 x.1.2 :: added).
      rewrite filter_cons_True by done. split_and!.
      * by rewrite Htr, Hc, <- app_assoc.
      * intros n Hn. rewrite fmap_cons in Hn. apply not_elem_of_cons in Hn as [Hn1 Hn2].
        rewrite (Hout n Hn2).
        destruct (decide (out (step h source_dir st x) !! n = out st !! n)) as [|Hne];
          [done|]. apply step_out in Hne as [_ ->]. done.
      * rewrite fmap_cons. intros [Hfresh Hnd]%NoDup_cons. constructor; [|by apply Hall].
        apply (copied_same (out (step h source_dir st x))); [by apply Hout|].
        by apply step_copied.
    + rewrite step_skip in * by done. rewrite filter_cons_False by done.
      by exists added.
Qed.

End Contents.

(** X5: after a finished run in which no two files were given the same
    name, the output directory holds, under the name of every matched
    entry met whose read and write succeeded, the header and text written
    for that entry, and under the name of one whose write broke off, the
    part written: nothing of it was replaced later in the run. *)
Theorem X5_distinct_names_keep_every_copy h e source_dir t st :
  convert_elixir_to_txt h e source_dir t = Finished st →
  NoDup (new_filename <$> trace st) →
  Forall2 (copied h source_dir (out st))
    (filter matched (walk_files source_dir t)) (trace st).
Proof.
  unfold convert_elixir_to_txt.
  destruct (makedirs_error e); [done|]. destruct (open_log_error e); [done|].
  intros [= <-]. rewrite loop_flat. fold (walk_files source_dir t).
  destruct (loop_copied h source_dir (walk_files source_dir t) (start e))
    as (added & Htr & _ & Hall).
  rewrite Htr. cbn [start trace app]. apply Hall.
Qed.

Lemma X5_witness :
  Forall2 (copied ascii_host (lit ".") (out project_run))
    (filter matched (walk_files (lit ".") project)) (trace project_run).
Proof.
  apply (X5_distinct_names_keep_every_copy ascii_host quiet (lit ".") project project_run).
  - reflexivity.
  - apply (bool_decide_unpack _). vm_compute. exact I.
Defined.

(** X12: when no file of the tree both matches and lies outside every
    [deps] (an empty tree, for one), a finished run has logged nothing,
    named nothing, and left the output directory as it was: the log is its
    header alone. *)
Theorem X12_nothing_to_convert_changes_nothing h e source_dir t st :
  wf_tree t = true →
  filter eligible (spec_files t) = [] →
  convert_elixir_to_txt h e source_dir t = Finished st →
  log st = [] ∧ trace st = [] ∧ processed_files st = ∅ ∧ out st = existing e
  ∧ log_text e st = concat (log_header e).
Proof.
  intros Hwf Hnone. unfold convert_elixir_to_txt.
  destruct (makedirs_error e); [done|]. destruct (open_log_error e); [done|].
  intros [= <-]. rewrite loop_flat. fold (walk_files source_dir t).
  destruct (loop_bookkeeping h source_dir e (walk_files source_dir t))
    as (_ & Hnew & Hset). revert Hnew Hset.
  destruct (run_paths h source_dir e t Hwf) as [Hlog Htrace].
  rewrite Hnone in Hlog, Htrace.
  apply fmap_nil_inv in Hlog. apply fmap_nil_inv in Htrace.
  intros Hnew Hset. rewrite Htrace in Hset. cbn in Hset.
  split_and!; [done | done | done | |].
  - apply map_eq. intros n.
    destruct (decide (out (foldl (step h source_dir) (start e)
                             (walk_files source_dir t)) !! n = existing e !! n))
      as [|Hne]; [done|].
    apply Hnew in Hne. rewrite Hset in Hne. by apply elem_of_empty in Hne.
  - rewrite log_text_eq, Hlog. apply app_nil_r.
Qed.

Lemma X12_witness :
  log idle_run = [] ∧ trace idle_run = [] ∧ processed_files idle_run = ∅
  ∧ out idle_run = existing busy
  ∧ log_text busy idle_run = concat (log_header busy).
Proof.
  apply (X12_nothing_to_convert_changes_nothing ascii_host busy (lit ".") nothing_eligible);
    reflexivity.
Defined.

(** X7: the log of a finished run lists the converted files in the order
    of the tree, the files of a directory before those of its
    sub-directories and these in the order of the listing; the path of each
    is the source directory, a separator unless that is empty or ends in
    one, then the names from the top down joined by separators. *)
Theorem X7_log_follows_the_tree_with_joined_paths h e source_dir t st :
  wf_tree t = true →
  convert_elixir_to_txt h e source_dir t = Finished st →
  entry_path <$> log st
  = (λ x, dir_prefix source_dir ++ rel_path x.1.1 x.1.2)
      <$> filter eligible (spec_files t).
Proof.
  intros Hwf. unfold convert_elixir_to_txt.
  destruct (makedirs_error e); [done|]. destruct (open_log_error e); [done|].
  intros [= <-]. rewrite loop_flat. fold (walk_files source_dir t).
  destruct (run_paths h source_dir e t Hwf) as [-> _].
  apply list_fmap_ext. intros i x Hx.
  apply list_elem_of_lookup_2, list_elem_of_filter in Hx as [_ Hx].
  pose proof (spec_files_good t Hwf) as Hgood. rewrite Forall_forall in Hgood.
  specialize (Hgood x Hx). destruct x as [[chain file] io].
  by apply path_of_rel.
Qed.

Lemma X7_witness :
  entry_path <$> log project_run = [ lit "./mix.exs"; lit "./lib/foo.ex" ].
Proof.
  exact (X7_log_follows_the_tree_with_joined_paths ascii_host quiet (lit ".") project
           project_run eq_refl eq_refl).
Defined.

(** ** Further properties: the lines of the log *)

Lemma count_newlines_app (a b : str) :
  count_newlines (a ++ b) = (count_newlines a + count_newlines b)%nat.
Proof. unfold count_newlines. by rewrite filter_app, length_app. Qed.

Lemma count_newlines_free (s : str) : newline ∉ s → count_newlines s = 0%nat.
Proof.
  unfold count_newlines. induction s as [|c s IH]; [done|].
  intros [Hc Hs]%not_elem_of_cons. rewrite filter_cons_False by done. by apply IH.
Qed.

Lemma count_newlines_lines (ls : list str) :
  Forall (λ l, newline ∉ l) ls →
  count_newlines (ls ≫= λ l, l ++ nl) = length ls.
Proof.
  induction 1 as [|l ls Hl Hls IH]; [done|].
  rewrite bind_cons, !count_newlines_app, IH, count_newlines_free by done. done.
Qed.

Lemma render_one_line en : one_line en → count_newlines (render en) = 1%nat.
Proof.
  assert (Happ : ∀ a b : str, newline ∉ a → newline ∉ b → newline ∉ a ++ b).
  { intros a b Ha Hb [?|?]%elem_of_app; tauto. }
  destruct en as [p n|p m]; intros [H1 H2]; cbn [render];
    rewrite !app_assoc, count_newlines_app, count_newlines_free; try done;
    repeat apply Happ; try done; refute.
Qed.

(** The header of the log as lines: four with text, one blank. *)
Lemma log_header_lines e :
  concat (log_header e)
  = [ lit "Elixir Files Conversion Log";
      lit "Generated on: " ++ generated_on e;
      lit "Source directory: " ++ abs_source e;
      lit "Output directory: " ++ abs_output e;
      [] ] ≫= λ l, l ++ nl.
Proof.
  unfold log_header. cbn [concat mbind list_bind].
  rewrite <- !app_assoc. cbn [app]. done.
Qed.

(** X8: the text of the log starts with five lines, the fifth one blank,
    when the date and the two absolute paths hold no newline; what follows
    is the lines of the records, and when no record holds a newline the log
    has five lines and one more per record. *)
Theorem X8_the_log_is_a_five_line_header_and_a_line_per_record e st :
  newline ∉ generated_on e → newline ∉ abs_source e → newline ∉ abs_output e →
  Forall one_line (log st) →
  skip_lines 5 (log_text e st) = log st ≫= render
  ∧ skip_lines 4 (concat (log_header e)) = nl
  ∧ count_newlines (log_text e st) = (5 + length (log st))%nat.
Proof.
  intros Hg Hs Ho Hrec.
  assert (Happ : ∀ a b : str, newline ∉ a → newline ∉ b → newline ∉ a ++ b).
  { intros a b Ha Hb [?|?]%elem_of_app; tauto. }
  assert (Hlines : Forall (λ l, newline ∉ l)
            [ lit "Elixir Files Conversion Log";
              lit "Generated on: " ++ generated_on e;
              lit "Source directory: " ++ abs_source e;
              lit "Output directory: " ++ abs_output e;
              [] ]).
  { repeat apply Forall_cons_2; try apply Forall_nil_2; cbn beta;
      try apply not_elem_of_nil; try (apply Happ; [refute | done]); refute. }
  rewrite log_text_eq, log_header_lines. split_and!.
  - by apply (skip_lines_lines [_; _; _; _; _]).
  - change [ lit "Elixir Files Conversion Log"; lit "Generated on: " ++ generated_on e;
             lit "Source directory: " ++ abs_source e;
             lit "Output directory: " ++ abs_output e; [] ]
      with ([ lit "Elixir Files Conversion Log"; lit "Generated on: " ++ generated_on e;
              lit "Source directory: " ++ abs_source e;
              lit "Output directory: " ++ abs_output e ] ++ [[]]) in Hlines |- *.
    apply Forall_app in Hlines as [Hlines _]. rewrite bind_app.
    by apply (skip_lines_lines [_; _; _; _]).
  - rewrite count_newlines_app, (count_newlines_lines [_; _; _; _; _]) by done.
    f_equal. induction Hrec as [|en l Hen Hl IH]; [done|].
    by rewrite bind_cons, count_newlines_app, render_one_line, IH.
Qed.

Lemma X8_witness :
  skip_lines 5 (log_text quiet project_run) = log project_run ≫= render
  ∧ skip_lines 4 (concat (log_header quiet)) = nl
  ∧ count_newlines (log_text quiet project_run) = 7%nat.
Proof.
  apply (X8_the_log_is_a_five_line_header_and_a_line_per_record quiet project_run);
    try refute.
  replace (log project_run)
    with [ Error (lit "./mix.exs") (lit "[Errno 13] Permission denied");
           Success (lit "./lib/foo.ex") (lit "foo.ex.txt") ]
    by (vm_compute; reflexivity).
  repeat apply Forall_cons_2; [split; refute | split; refute | constructor].
Defined.

(** ** Further properties: the output directory inside the source tree *)

Lemma remove_dir_insert ds1 (x : str * tree) ds2 :
  x.1 ≠ deps →
  ∃ l1 l2, remove_dir deps (ds1 ++ ds2) = l1 ++ l2
           ∧ remove_dir deps (ds1 ++ x :: ds2) = l1 ++ x :: l2.
Proof.
  intros Hx. induction ds1 as [|[d sub] ds1 IH]; cbn [app remove_dir].
  - exists [], (remove_dir deps ds2). destruct x as [d sub]. cbn [remove_dir].
    by rewrite bool_decide_eq_false_2.
  - case_bool_decide.
    + by exists ds1, ds2.
    + destruct IH as (l1 & l2 & -> & ->). by exists ((d, sub) :: l1), l2.
Qed.

Lemma walk_files_flat top fs :
  walk_files top (Dir [] fs) = (λ '(file, io), (top, file, io)) <$> fs.
Proof. rewrite walk_files_eq. apply app_nil_r. Qed.

(** A sub-directory that holds files only adds its files, in one stretch,
    to what the loop meets. *)
Lemma walk_files_insert top ds1 d fs ds2 files :
  d ≠ deps →
  ∃ before after,
    walk_files top (Dir (ds1 ++ ds2) files) = before ++ after
    ∧ walk_files top (Dir (ds1 ++ (d, Dir [] fs) :: ds2) files)
      = before ++ ((λ '(file, io), (join top d, file, io)) <$> fs) ++ after.
Proof.
  intros Hd. destruct (remove_dir_insert ds1 (d, Dir [] fs) ds2 Hd) as (l1 & l2 & H1 & H2).
  rewrite !walk_files_eq, H1, H2, !bind_app, bind_cons. cbn [fst snd].
  rewrite walk_files_flat.
  exists (((λ '(file, io), (top, file, io)) <$> files)
            ++ (l1 ≫= λ d0, walk_files (join top d0.1) d0.2)),
         (l2 ≫= λ d0, walk_files (join top d0.1) d0.2).
  by rewrite <- !app_assoc.
Qed.

Lemma loop_skips_unmatched h source_dir (skipped : list (str * str * fileio)) :
  Forall (λ x, ¬ matched x) skipped →
  ∀ st, foldl (step h source_dir) st skipped = st.
Proof.
  induction 1 as [|x l Hx Hl IH]; intros st; [done|].
  cbn [foldl]. by rewrite step_skip, IH.
Qed.

(** The names of the files a run over a fresh output directory has produced
    do not match, and neither does the name of the log. *)
Lemma products_unmatched h e source_dir t st fs :
  existing e = ∅ →
  convert_elixir_to_txt h e source_dir t = Finished st →
  products st fs → Forall (λ f, matches f.1 = false) fs.
Proof.
  intros Hfresh Hrun Hp. unfold products in Hp. eapply Forall_impl; [exact Hp|].
  clear Hp. intros [n io] [Hn|Hn]; cbn [fst] in *.
  - by subst n.
  - revert Hrun Hn. unfold convert_elixir_to_txt.
    destruct (makedirs_error e); [done|]. destruct (open_log_error e); [done|].
    intros [= <-]. rewrite loop_flat. fold (walk_files source_dir t).
    intros [v Hv]%elem_of_dom.
    destruct (loop_out_changed h source_dir e (walk_files source_dir t) n)
      as (c & Hc & <-).
    { rewrite Hv, Hfresh. by rewrite lookup_empty. }
    apply trace_named in Hc as (seen & root & file & _ & ->).
    apply new_filename_unmatched.
Qed.

Lemma convert_ignores_unmatched_directory h e source_dir ds1 d fs ds2 files :
  d ≠ deps → Forall (λ f, matches f.1 = false) fs →
  convert_elixir_to_txt h e source_dir (Dir (ds1 ++ (d, Dir [] fs) :: ds2) files)
  = convert_elixir_to_txt h e source_dir (Dir (ds1 ++ ds2) files).
Proof.
  intros Hd Hfs. unfold convert_elixir_to_txt.
  destruct (makedirs_error e); [done|]. destruct (open_log_error e); [done|].
  f_equal. rewrite !loop_flat.
  fold (walk_files source_dir (Dir (ds1 ++ (d, Dir [] fs) :: ds2) files)).
  fold (walk_files source_dir (Dir (ds1 ++ ds2) files)).
  destruct (walk_files_insert source_dir ds1 d fs ds2 files Hd)
    as (before & after & -> & ->).
  rewrite !foldl_app. f_equal. apply loop_skips_unmatched.
  apply Forall_fmap. eapply Forall_impl; [exact Hfs|].
  intros [n io] Hn. unfold matched. cbn in *. by rewrite Hn.
Qed.

(** X9: [main] puts the output directory inside the directory it converts.
    When that directory is fresh, finding it in the tree, with the log and
    any of the files the run produces in it, in any order, changes nothing:
    the run ends in the same state and [main] prints the same. *)
Theorem X9_main_does_not_convert_its_own_output
    h e timestamp ds1 ds2 files fs st printed :
  existing e = ∅ →
  main h e timestamp (Dir (ds1 ++ ds2) files) = (Finished st, printed) →
  products st fs →
  main h e timestamp
    (Dir (ds1 ++ (lit "elixir_txt_" ++ timestamp, Dir [] fs) :: ds2) files)
  = (Finished st, printed).
Proof.
  intros Hfresh Hmain Hfs. unfold main in *.
  rewrite convert_ignores_unmatched_directory; [done | done |].
  destruct (convert_elixir_to_txt h e (lit ".") (Dir (ds1 ++ ds2) files))
    as [err o|st'] eqn:Hrun; [done|].
  injection Hmain as -> _. by eapply products_unmatched.
Qed.

Lemma X9_witness :
  main ascii_host quiet main_time
    (Dir ([ (lit "lib", Dir [] [ (lit "foo.ex", readable foo_source) ]) ]
          ++ (lit "elixir_txt_" ++ main_time,
              Dir [] [ (log_name, readable []);
                       (lit "foo.ex.txt", unreadable (lit "busy")) ])
          :: [ (deps, Dir [ (lit "sub", Dir [] [ (lit "ignored.ex", readable foo_source) ]) ]
                          [ (lit "dep.ex", readable foo_source) ]) ])
       [ (lit "README.md", readable (lit "# readme"));
         (lit "mix.exs", unreadable (lit "[Errno 13] Permission denied")) ])
  = (Finished project_run,
     [ lit "Elixir files have been converted to text format in: elixir_txt_20240501_100000";
       lit "Check _conversion_log.txt in the output directory for details" ]).
Proof.
  apply (X9_main_does_not_convert_its_own_output ascii_host quiet main_time).
  - reflexivity.
  - reflexivity.
  - repeat apply Forall_cons_2; [by left | right | constructor].
    apply elem_of_dom. eexists. vm_compute. reflexivity.
Defined.

(** ** Further properties: the text copied *)

Lemma decode_length bs : (length (decode bs) ≤ length bs)%nat.
Proof.
  induction bs as [bs IH] using list_length_ind.
  destruct bs as [|b0 r0]; [done|]. cbn [decode].
  assert (IH0 : (length (decode r0) ≤ length r0)%nat) by (apply IH; cbn; lia).
  destruct (b0 <? 0x80); [cbn; lia|].
  destruct (in_range 0xC2 0xDF b0).
  { destruct r0 as [|b1 r1]; [cbn; lia|].
    destruct (in_range 0x80 0xBF b1); [|cbn in *; lia].
    assert ((length (decode r1) ≤ length r1)%nat) by (apply IH; cbn; lia). cbn. lia. }
  destruct (in_range 0xE0 0xEF b0).
  { destruct r0 as [|b1 r1]; [cbn; lia|].
    destruct (in_range _ _ b1); [|cbn in *; lia].
    assert (IH1 : (length (decode r1) ≤ length r1)%nat) by (apply IH; cbn; lia).
    destruct r1 as [|b2 r2]; [cbn; lia|].
    destruct (in_range 0x80 0xBF b2); [|cbn [length] in *; lia].
    assert ((length (decode r2) ≤ length r2)%nat) by (apply IH; cbn; lia).
    cbn [length]. lia. }
  destruct (in_range 0xF0 0xF4 b0); [|cbn [length] in *; lia].
  destruct r0 as [|b1 r1]; [cbn; lia|].
  destruct (in_range _ _ b1); [|cbn [length] in *; lia].
  assert (IH1 : (length (decode r1) ≤ length r1)%nat) by (apply IH; cbn; lia).
  destruct r1 as [|b2 r2]; [cbn; lia|].
  destruct (in_range 0x80 0xBF b2); [|cbn [length] in *; lia].
  assert (IH2 : (length (decode r2) ≤ length r2)%nat) by (apply IH; cbn; lia).
  destruct r2 as [|b3 r3]; [cbn; lia|].
  destruct (in_range 0x80 0xBF b3); [|cbn [length] in *; lia].
  assert ((length (decode r3) ≤ length r3)%nat) by (apply IH; cbn; lia).
  cbn [length]. lia.
Qed.

Lemma universal_newlines_length s : (length (universal_newlines s) ≤ length s)%nat.
Proof.
  induction s as [s IH] using list_length_ind.
  destruct s as [|c r]; [done|]. cbn [universal_newlines]. case_bool_decide.
  - destruct r as [|c' r']; [done|]. case_bool_decide.
    + assert ((length (universal_newlines r') ≤ length r')%nat) by (apply IH; cbn; lia).
      cbn [length]. lia.
    + assert ((length (universal_newlines (c' :: r')) ≤ length (c' :: r'))%nat)
        by (apply IH; cbn; lia).
      cbn [length] in *. lia.
  - assert ((length (universal_newlines r) ≤ length r)%nat) by (apply IH; cbn; lia).
    cbn [length]. lia.
Qed.

(** X10: a source that is the UTF-8 encoding of a text without carriage
    return is copied exactly: the output file holds the header followed by
    that very text, whose encoding is the bytes of the source. *)
Theorem X10_well_formed_sources_are_copied_exactly
    h source_dir st root file io (text : str) :
  matches file = true →
  f_read io = ReadOk (encode text) → f_write io = WriteOk →
  Forall (λ ch, scalar ch = true) text → cr ∉ text →
  let c := name_file h (processed_files st) root file in
  let st' := process_file h source_dir st root file io in
  let lines := header_lines file (relpath h (join root file) source_dir)
                 (original_ext c) (f_now io) in
  out st' !! new_filename c = Some ((lines ≫= λ l, l ++ nl) ++ text)
  ∧ encode (read_text (encode text)) = encode text.
Proof.
  intros Hm Hr Hw Hscalar Hcr. cbn zeta.
  assert (Hread : read_text (encode text) = text).
  { unfold read_text. rewrite decode_encode by done. by apply universal_newlines_id. }
  unfold process_file. rewrite Hm, Hr, Hw. cbn [negb out].
  by rewrite lookup_insert_eq, dst_writes_header, Hread.
Qed.

Lemma X10_witness :
  let c := name_file ascii_host ∅ (lit "./lib") (lit "cafe.ex") in
  let st' := process_file ascii_host (lit ".") (start quiet) (lit "./lib") (lit "cafe.ex")
               (readable (encode cafe_text)) in
  let lines := header_lines (lit "cafe.ex") (lit "lib/cafe.ex") (lit ".ex")
                 (f_now (readable (encode cafe_text))) in
  out st' !! lit "cafe.ex.txt" = Some ((lines ≫= λ l, l ++ nl) ++ cafe_text)
  ∧ encode (read_text (lit "# caf" ++ [0xC3; 0xA9; newline])) = lit "# caf" ++ [0xC3; 0xA9; newline].
Proof.
  apply (X10_well_formed_sources_are_copied_exactly ascii_host (lit ".") (start quiet)
           (lit "./lib") (lit "cafe.ex") (readable (encode cafe_text)) cafe_text);
    [reflexivity | reflexivity | reflexivity | | refute].
  unfold cafe_text. apply Forall_app.
  split; repeat (constructor; [reflexivity|]); constructor.
Defined.

(** X11: whatever bytes a source holds, the text copied from it holds no
    carriage return (line ends come out as [\n]) and has at most one
    character per byte of the source. *)
Theorem X11_copied_text_has_no_carriage_return h source_dir st root file io bytes :
  matches file = true →
  f_read io = ReadOk bytes → f_write io = WriteOk →
  let c := name_file h (processed_files st) root file in
  let st' := process_file h source_dir st root file io in
  let lines := header_lines file (relpath h (join root file) source_dir)
                 (original_ext c) (f_now io) in
  ∃ body, out st' !! new_filename c = Some ((lines ≫= λ l, l ++ nl) ++ body)
    ∧ (cr ∉ body) ∧ (length body ≤ length bytes)%nat.
Proof.
  intros Hm Hr Hw. cbn zeta. exists (read_text bytes).
  unfold process_file. rewrite Hm, Hr, Hw. cbn [negb out]. split_and!.
  - by rewrite lookup_insert_eq, dst_writes_header.
  - apply universal_newlines_no_cr.
  - unfold read_text. etrans; [apply universal_newlines_length | apply decode_length].
Qed.

Lemma X11_witness :
  let st' := process_file ascii_host (lit ".") (start quiet) (lit "./lib") (lit "cafe.ex")
               (readable latin1_source) in
  let lines := header_lines (lit "cafe.ex") (lit "lib/cafe.ex") (lit ".ex")
                 (f_now (readable latin1_source)) in
  ∃ body, out st' !! lit "cafe.ex.txt" = Some ((lines ≫= λ l, l ++ nl) ++ body)
    ∧ (cr ∉ body) ∧ (length body ≤ 8)%nat.
Proof.
  exact (X11_copied_text_has_no_carriage_return ascii_host (lit ".") (start quiet)
           (lit "./lib") (lit "cafe.ex") (readable latin1_source) latin1_source
           eq_refl eq_refl eq_refl).
Defined.

(** ** Further properties: distinct names *)

Lemma X1_witness : NoDup (new_filename <$> trace project_run).
Proof.
  apply (names_unique_without_hash_clash ascii_host quiet (lit ".") project).
  - reflexivity.
  - intros x y Hx Hy Hh.
    assert (Hp : ∀ z, z ∈ filter eligible (spec_files project) →
                 file_path (lit ".") z = lit "./mix.exs"
                 ∨ file_path (lit ".") z = lit "./lib/foo.ex").
    { intros z Hz. apply (list_elem_of_fmap_2 (file_path (lit "."))) in Hz.
      change (file_path (lit ".") z ∈ [ lit "./mix.exs"; lit "./lib/foo.ex" ]) in Hz.
      apply elem_of_cons in Hz as [->|Hz]; [by left|].
      apply list_elem_of_singleton in Hz as ->. by right. }
    destruct (Hp x Hx) as [Hpx|Hpx], (Hp y Hy) as [Hpy|Hpy];
      rewrite Hpx, Hpy in *; try reflexivity; vm_compute in Hh; discriminate Hh.
Defined.
